(** * CDC merge pipeline: the Glue merge job and its Lambda trigger

    A shallow embedding of [glue.py] (the merge job) and of
    [lambda_trigger.py] (the trigger adapter), with the properties of the
    merge algorithm, of the promotion protocol and of the adapter's
    failure behaviour.

    The managed services the two scripts talk to are not part of the
    repository: the dataframe engine's CSV codec and its string-to-int
    cast, the job-start call of the job service and the URL decoding of
    the standard library are taken as type classes, so that every theorem
    holds for whatever these collaborators compute.  The object
    store is modelled: one bucket, a finite map from keys to contents. *)

From Stdlib Require Import ZArith Ascii String List Permutation Lia Bool DecimalString.
From stdpp Require Import base option list strings gmap fin_maps sorting.

Local Open Scope string_scope.
Local Open Scope list_scope.

(** ** Data model *)

(** A CSV cell as the engine reads it: a string, or SQL null. *)
Definition cell : Type := option string.

(** A row of the Snapshot, columns (PersonID INT, FullName STRING,
    City STRING).  [PersonID] is [None] for SQL null. *)
Record SnapshotRow : Type := mkRow {
  PersonID : option Z;
  FullName : cell;
  City : cell
}.

(** A row of a CDC batch after [toDF("Op", "PersonID", "FullName", "City")]
    and the cast of PersonID: the tag and the three Snapshot columns. *)
Record CdcRow : Type := mkCdc {
  Op : cell;
  payload : SnapshotRow
}.

(** The frame [spark.read.option("header", False).csv(...)] returns: the
    number of columns ([len(df.columns)]) and the rows, all cells strings
    or null. *)
Record CsvFrame : Type := mkFrame {
  num_cols : nat;
  csv_rows : list (list cell)
}.

#[global] Instance SnapshotRow_eq_dec : EqDecision SnapshotRow.
Proof. solve_decision. Defined.

#[global] Instance CdcRow_eq_dec : EqDecision CdcRow.
Proof. solve_decision. Defined.

(** ** Dataframe operations used by the job *)

Module DF.

(** SQL equality of two join keys: null equals nothing, not even null. *)
Definition key_eq (a b : option Z) : bool :=
  match a, b with
  | Some x, Some y => Z.eqb x y
  | _, _ => false
  end.

(** [col("Op") == tag]: true only for a non-null cell equal to [tag]. *)
Definition op_is (tag : string) (r : CdcRow) : bool :=
  match Op r with
  | Some o => bool_decide (o = tag)
  | None => false
  end.

(** [left.join(right, on="PersonID", how="left_anti")], where [right] has
    been reduced to its PersonID column: the rows of [left] that no row
    of [right] matches on the key. *)
Definition left_anti (left : list SnapshotRow) (right : list (option Z))
  : list SnapshotRow :=
  List.filter (fun l => negb (existsb (key_eq (PersonID l)) right)) left.

(** [a.unionByName(b)] on frames of the same columns: all rows of both,
    duplicates kept. *)
Definition unionByName (a b : list SnapshotRow) : list SnapshotRow := a ++ b.

End DF.

(** ** Step 3 of the job, CDC branch (glue.py lines 55-66) *)

Definition inserts (df : list CdcRow) : list SnapshotRow :=
  map payload (List.filter (DF.op_is "I") df).

Definition updates (df : list CdcRow) : list SnapshotRow :=
  map payload (List.filter (DF.op_is "U") df).

Definition deletes (df : list CdcRow) : list (option Z) :=
  map (fun r => PersonID (payload r)) (List.filter (DF.op_is "D") df).

Definition current (existing : list SnapshotRow) (df : list CdcRow)
  : list SnapshotRow :=
  DF.left_anti (DF.left_anti existing (deletes df)) (map PersonID (updates df)).

Definition cdc_merge (existing : list SnapshotRow) (df : list CdcRow)
  : list SnapshotRow :=
  DF.unionByName (DF.unionByName (current existing df) (inserts df)) (updates df).

(** The non-null PersonIDs of a frame, one entry per row that has one. *)
Definition keys (rows : list SnapshotRow) : list Z := omap PersonID rows.

(** The non-null keys of the Delete rows. *)
Definition delete_keys (df : list CdcRow) : list Z := omap id (deletes df).

(** ** The merge as the specification words it *)

Module Spec.

(** A row's PersonID "is in" a set of keys: it is non-null and equal to
    one of them (a null key never matches). *)
Definition key_in (k : option Z) (ks : list Z) : bool :=
  match k with
  | Some x => existsb (Z.eqb x) ks
  | None => false
  end.

(** (prior - Deletes - Updates-by-key) + Inserts + Updates. *)
Definition new_snapshot (prior : list SnapshotRow)
    (ins upd : list SnapshotRow) (del : list Z) : list SnapshotRow :=
  List.filter (fun r => negb (key_in (PersonID r) del)
                        && negb (key_in (PersonID r) (keys upd))) prior
  ++ ins ++ upd.

(** Two key lists share no key. *)
Definition disjoint_keys (a b : list Z) : Prop :=
  Forall (fun k => k ∉ b) a.

(** The rows of a batch that carry a given Op tag, in the order of the
    batch, reduced to the three Snapshot columns. *)
Fixpoint tagged (tag : string) (df : list CdcRow) : list SnapshotRow :=
  match df with
  | [] => []
  | r :: rest =>
      if decide (Op r = Some tag) then payload r :: tagged tag rest
      else tagged tag rest
  end.

(** The partition of a batch by Op: Inserts (Op = I), Updates (Op = U)
    and Deletes (Op = D), of which only the PersonID is meaningful. *)
Definition Inserts (df : list CdcRow) : list SnapshotRow := tagged "I" df.

Definition Updates (df : list CdcRow) : list SnapshotRow := tagged "U" df.

Definition Deletes (df : list CdcRow) : list Z := omap PersonID (tagged "D" df).

(** A batch whose Insert, Update and Delete key sets are duplicate-free
    and pairwise disjoint. *)
Definition clean_batch (df : list CdcRow) : Prop :=
  NoDup (keys (Inserts df)) ∧ NoDup (keys (Updates df))
  ∧ NoDup (Deletes df)
  ∧ disjoint_keys (keys (Inserts df)) (keys (Updates df))
  ∧ disjoint_keys (keys (Inserts df)) (Deletes df)
  ∧ disjoint_keys (keys (Updates df)) (Deletes df).

(** The Op tag is one of the three the job looks for. *)
Definition known_op (r : CdcRow) : bool :=
  bool_decide (Op r = Some "I") || bool_decide (Op r = Some "U")
  || bool_decide (Op r = Some "D").

End Spec.

(** The example of the specification. *)
Definition prior_ex : list SnapshotRow :=
  [ mkRow (Some 1%Z) (Some "Alice") (Some "NYC");
    mkRow (Some 2%Z) (Some "Bob") (Some "LA") ].

Definition batch_ex : list CdcRow :=
  [ mkCdc (Some "I") (mkRow (Some 3%Z) (Some "Carl") (Some "SF"));
    mkCdc (Some "D") (mkRow (Some 2%Z) None None) ].

(** A batch with one row of each kind on distinct PersonIDs: an Insert
    of 3, an Update of 1 and a Delete of 2. *)
Definition batch_full : list CdcRow :=
  [ mkCdc (Some "I") (mkRow (Some 3%Z) (Some "Carl") (Some "SF"));
    mkCdc (Some "U") (mkRow (Some 1%Z) (Some "Alice") (Some "LA"));
    mkCdc (Some "D") (mkRow (Some 2%Z) None None) ].

(** A prior Snapshot and a batch that inserts a PersonID the Snapshot
    already has. *)
Definition prior_one : list SnapshotRow :=
  [ mkRow (Some 1%Z) (Some "Alice") (Some "NYC") ].

Definition batch_reinsert : list CdcRow :=
  [ mkCdc (Some "I") (mkRow (Some 1%Z) (Some "Alice") (Some "SF")) ].

(** A batch that inserts the same new PersonID twice. *)
Definition batch_twice : list CdcRow :=
  [ mkCdc (Some "I") (mkRow (Some 3%Z) (Some "Carl") (Some "SF"));
    mkCdc (Some "I") (mkRow (Some 3%Z) (Some "Carl") (Some "LA")) ].

(** A batch that deletes a PersonID and inserts it again, and updates
    another. *)
Definition batch_replace : list CdcRow :=
  [ mkCdc (Some "D") (mkRow (Some 2%Z) None None);
    mkCdc (Some "I") (mkRow (Some 2%Z) (Some "Bob") (Some "SF"));
    mkCdc (Some "U") (mkRow (Some 1%Z) (Some "Alice") (Some "LA")) ].

(** A batch that deletes and updates the same PersonID, in both orders. *)
Definition batch_delete_update : list CdcRow :=
  [ mkCdc (Some "D") (mkRow (Some 2%Z) None None);
    mkCdc (Some "U") (mkRow (Some 2%Z) (Some "Bob") (Some "SF")) ].


(** ** Python string methods used by the two scripts *)

Module Py.

(** [s.replace(old, new)] for a non-empty [old]: occurrences are replaced
    from the left and do not overlap.  [skip] counts the characters of
    the occurrence just replaced that are still to be passed over. *)
Fixpoint replace_from (old new : string) (skip : nat) (s : string) : string :=
  match s with
  | EmptyString => EmptyString
  | String c s' =>
      match skip with
      | S k => replace_from old new k s'
      | O =>
          if String.prefix old s
          then new +:+ replace_from old new (String.length old - 1) s'
          else String c (replace_from old new 0 s')
      end
  end.

Definition replace (old new s : string) : string := replace_from old new 0 s.

(** [s.split(sep)] for a one-character separator; never the empty list. *)
Fixpoint split (sep : ascii) (s : string) : list string :=
  match s with
  | EmptyString => [EmptyString]
  | String c s' =>
      if Ascii.eqb c sep then EmptyString :: split sep s'
      else match split sep s' with
           | w :: ws => String c w :: ws
           | [] => [String c EmptyString]
           end
  end.

(** [sep.join(parts)]. *)
Definition join (sep : string) (parts : list string) : string :=
  String.concat sep parts.

(** [parts[-1]] of a list that [split] returned. *)
Definition last_part (parts : list string) : string := List.last parts "".

(** A character does not occur in a string. *)
Fixpoint lacks (c : ascii) (s : string) : bool :=
  match s with
  | EmptyString => true
  | String a s' => negb (Ascii.eqb a c) && lacks c s'
  end.

End Py.

(** ** The regular expression of Step 5 *)

Module Re.

(** The pieces the pattern is made of: a literal character, [.*] and [$]. *)
Inductive token : Type :=
| Chr (c : ascii)
| DotStar
| Dollar.

Definition newline : ascii := ascii_of_nat 10.

(** [.*] followed by a continuation [k]: try [k] after every run of
    characters other than newline. *)
Fixpoint star (k : string -> bool) (s : string) : bool :=
  k s ||
  match s with
  | EmptyString => false
  | String c s' => negb (Ascii.eqb c newline) && star k s'
  end.

(** [re.match(pattern, s)]: the pattern matches a prefix of [s].  [$]
    matches at the end of the string and before a final newline. *)
Fixpoint matches (p : list token) (s : string) : bool :=
  match p with
  | [] => true
  | Chr c :: p' =>
      match s with
      | String a s' => Ascii.eqb a c && matches p' s'
      | EmptyString => false
      end
  | DotStar :: p' => star (matches p') s
  | Dollar :: p' =>
      (bool_decide (s = EmptyString) || bool_decide (s = String newline EmptyString))
      && matches p' s
  end.

Definition literal (s : string) : list token := map Chr (list_ascii_of_string s).

(** [r".*/part-.*\.csv$"]. *)
Definition part_pattern : list token :=
  DotStar :: literal "/part-" ++ DotStar :: literal ".csv" ++ [Dollar].

End Re.

(** ** The object store *)

(** One bucket: object key to object content (a byte string). *)
Abbreviation store := (gmap string string).

Module S3.

(** The keys under a prefix, in the order the service lists them (by the
    bytes of the key). *)
Definition list_keys (s : store) (prefix : string) : list string :=
  merge_sort String.le
    (List.filter (String.prefix prefix) (map fst (map_to_list s))).

(** What a dataframe write with [mode("overwrite")] does to the bucket:
    whatever was under the directory goes, then the files come. *)
Definition overwrite (s : store) (dir : string) (files : list (string * string))
  : store :=
  foldl (fun m f => <[dir +:+ f.1 := f.2]> m)
        (filter (fun kv => String.prefix dir kv.1 = false) s) files.

(** [list_objects_v2(Bucket, Prefix)]: one page, at most 1000 keys. *)
Definition list_objects_v2 (s : store) (prefix : string) : list string :=
  take 1000 (list_keys s prefix).

(** [s3.Object(bucket, dst).copy({'Bucket': bucket, 'Key': src})]. *)
Definition copy (s : store) (src dst : string) : store :=
  match s !! src with
  | Some c => <[dst := c]> s
  | None => s
  end.

(** [delete_objects(Bucket, Delete={'Objects': keys})]. *)
Definition delete_objects (s : store) (ks : list string) : store :=
  foldr delete s ks.

End S3.

(** ** The dataframe engine *)

(** What the job asks of the engine and the script does not define.
    [cast_int] is [col.cast("int")] on a string column; [read_csv] is the
    header-less CSV read of Step 2; [read_csv_header] is the read with
    header of the canonical file followed by the resolution of the columns
    PersonID, FullName and City, [None] when either raises; [write_csv] is
    the single-partition CSV writer: the names of the files it leaves in
    the output directory, with their contents. *)
Class SparkEngine : Type := {
  cast_int : cell -> option Z;
  read_csv : string -> CsvFrame;
  read_csv_header : string -> option (list (cell * cell * cell));
  write_csv : list SnapshotRow -> list (string * string)
}.

(** The cell of a row at a position; the reader pads short rows with null. *)
Definition cell_at (i : nat) (row : list cell) : cell := nth i row None.

(** [df.toDF("Op", "PersonID", "FullName", "City")
      .withColumn("PersonID", col("PersonID").cast("int"))], row by row. *)
Definition to_cdc `{SparkEngine} (row : list cell) : CdcRow :=
  mkCdc (cell_at 0 row)
        (mkRow (cast_int (cell_at 1 row)) (cell_at 2 row) (cell_at 3 row)).

(** [df.toDF("PersonID", "FullName", "City")
      .withColumn("PersonID", col("PersonID").cast("int"))], row by row. *)
Definition to_snapshot `{SparkEngine} (row : list cell) : SnapshotRow :=
  mkRow (cast_int (cell_at 0 row)) (cell_at 1 row) (cell_at 2 row).

(** ** Step 1: arguments, clock and paths *)

Record JobArgs : Type := mkArgs {
  JOB_NAME : string;
  dst_bucket_name : string;
  file_name : string
}.

Record datetime : Type := mkDatetime {
  year : nat; month : nat; day : nat;
  hour : nat; minute : nat; second : nat
}.

Definition digit (n : nat) : ascii := ascii_of_nat (48 + n mod 10).

Definition pad2 (n : nat) : string :=
  String (digit (n / 10)) (String (digit n) EmptyString).

Definition pad4 (n : nat) : string :=
  String (digit (n / 1000)) (String (digit (n / 100)) (pad2 n)).

(** [now.strftime('%Y%m%d_%H%M%S')], for the years 1000 to 9999. *)
Definition strftime (now : datetime) : string :=
  pad4 (year now) +:+ pad2 (month now) +:+ pad2 (day now) +:+ "_"
  +:+ pad2 (hour now) +:+ pad2 (minute now) +:+ pad2 (second now).

Definition base_prefix : string := "des_file".

(** The key of the input object; [input_path] is its URI. *)
Definition input_key (file_name : string) : string :=
  "intermediate_data/world/Person_Lewis/" +:+ file_name.

Definition input_path (bucket file_name : string) : string :=
  "s3://" +:+ bucket +:+ "/" +:+ input_key file_name.

(** The key prefix of the temporary directory; [temp_output_path] is its
    URI, which the engine resolves to this prefix of the bucket. *)
Definition temp_output_key (timestamp : string) : string :=
  base_prefix +:+ "/temp_output_" +:+ timestamp +:+ "/".

Definition temp_output_path (bucket timestamp : string) : string :=
  "s3://" +:+ bucket +:+ "/" +:+ temp_output_key timestamp.

Definition final_output_key : string := base_prefix +:+ "/final_output.csv".

(** A bucket name without slash and colon, which is every name the
    storage service admits. *)
Definition plain_name (bucket : string) : bool :=
  Py.lacks "/" bucket && Py.lacks ":" bucket.

(** ** Step 2: classification by column count *)

Inductive file_type : Type := cdc | snapshot.

(** The exceptions the job can end with: the [ValueError] of Step 2, which
    carries the column count, and the engine's error on a missing input. *)
Inductive job_error : Type :=
| ValueError (n : nat)
| AnalysisException (path : string).

Definition classify (n : nat) : job_error + file_type :=
  if Nat.eqb n 4 then inr cdc
  else if Nat.eqb n 3 then inr snapshot
  else inl (ValueError n).

(** ** What a run leaves behind: log lines and store operations *)

Inductive event : Type :=
| Info_detected (ft : file_type)
| Warn_no_existing
| Info_counts (i u d : nat)
| Info_final_count (n : nat)
| Store_write (dir : string) (df : list SnapshotRow)
| Info_written (path : string)
| Info_found_part (key : string)
| Store_copy (src dst : string)
| Info_copied (dst : string)
| Error_no_part
| Store_delete (ks : list string)
| Info_cleaned (prefix : string)
| Info_no_temp
| Job_commit.

Inductive outcome : Type :=
| Committed
| Raised (e : job_error).

#[global] Instance file_type_eq_dec : EqDecision file_type.
Proof. solve_decision. Defined.

#[global] Instance event_eq_dec : EqDecision event.
Proof. solve_decision. Defined.

(** ** Step 3: the new Snapshot *)

(** The body of the [try]: read the canonical file with header, cast and
    select; [None] when it raises. *)
Definition read_existing `{SparkEngine} (s : store) : option (list SnapshotRow) :=
  match s !! final_output_key with
  | None => None
  | Some c =>
      match read_csv_header c with
      | None => None
      | Some rows =>
          Some (map (fun r => mkRow (cast_int r.1.1) r.1.2 r.2) rows)
      end
  end.

(** The [try] with its [except]: an empty frame of the right columns. *)
Definition load_existing `{SparkEngine} (s : store)
  : list SnapshotRow * list event :=
  match read_existing s with
  | Some existing => (existing, [])
  | None => ([], [Warn_no_existing])
  end.

Definition step3 `{SparkEngine} (ft : file_type) (s : store) (frame : CsvFrame)
  : list SnapshotRow * list event :=
  match ft with
  | cdc =>
      let df := map to_cdc (csv_rows frame) in
      let '(existing, log) := load_existing s in
      (cdc_merge existing df,
       log ++ [Info_counts (length (inserts df)) (length (updates df))
                           (length (deletes df))])
  | snapshot => (map to_snapshot (csv_rows frame), [])
  end.

(** ** Step 4: write to the temporary directory *)

Definition write_temp `{SparkEngine} (s : store) (timestamp : string)
    (df : list SnapshotRow) : store :=
  S3.overwrite s (temp_output_key timestamp) (write_csv df).

(** ** Step 5: promotion *)

(** The prefix the script derives from the URI: the bucket name is cut
    off. *)
Definition temp_prefix (temp_path : string) : string :=
  Py.join "/" (tail (Py.split "/" (Py.replace "s3://" "" temp_path))).

(** The [for] loop: the first listed key that matches is copied and the
    function returns; after the loop only the error is logged. *)
Fixpoint scan_parts (s : store) (final_key : string) (objs : list string)
  : store * list event :=
  match objs with
  | [] => (s, [Error_no_part])
  | key :: rest =>
      if Re.matches Re.part_pattern key
      then (S3.copy s key final_key,
            [Info_found_part key; Store_copy key final_key; Info_copied final_key])
      else scan_parts s final_key rest
  end.

Definition move_part_to_final (s : store) (temp_path final_key : string)
  : store * list event :=
  scan_parts s final_key (S3.list_keys s (temp_prefix temp_path)).

(** ** Step 6: cleanup *)

Definition cleanup_temp_folder (s : store) (temp_path : string)
  : store * list event :=
  let prefix := temp_prefix temp_path in
  match S3.list_objects_v2 s prefix with
  | [] => (s, [Info_no_temp])
  | ks => (S3.delete_objects s ks, [Store_delete ks; Info_cleaned prefix])
  end.

(** ** The job, Steps 2 to 7 *)

(** The store as Step 5 finds it, for a run that gets there. *)
Definition store_at_promotion `{SparkEngine} (now : datetime) (s : store)
    (ft : file_type) (frame : CsvFrame) : store :=
  write_temp s (strftime now) (step3 ft s frame).1.

Definition run_job `{SparkEngine} (args : JobArgs) (now : datetime) (s : store)
  : outcome * store * list event :=
  let bucket := dst_bucket_name args in
  let timestamp := strftime now in
  match s !! input_key (file_name args) with
  | None => (Raised (AnalysisException (input_path bucket (file_name args))), s, [])
  | Some raw =>
      let frame := read_csv raw in
      match classify (num_cols frame) with
      | inl e => (Raised e, s, [])
      | inr ft =>
          let '(df, log3) := step3 ft s frame in
          let s4 := write_temp s timestamp df in
          let '(s5, log5) :=
            move_part_to_final s4 (temp_output_path bucket timestamp)
                               final_output_key in
          let '(s6, log6) :=
            cleanup_temp_folder s5 (temp_output_path bucket timestamp) in
          (Committed, s6,
           [Info_detected ft] ++ log3
           ++ [Info_final_count (length df);
               Store_write (temp_output_key timestamp) df;
               Info_written (temp_output_path bucket timestamp)]
           ++ log5 ++ log6 ++ [Job_commit])
      end
  end.

(** The frames a run handed to the writer, from its log. *)
Definition written (log : list event) : list (list SnapshotRow) :=
  omap (fun e => match e with Store_write _ df => Some df | _ => None end) log.

(** ** The trigger adapter (lambda_trigger.py) *)

(** The values an event decoded from JSON is made of. *)
#[warnings="-register-all"]
Inductive pyval : Type :=
| PNone
| PBool (b : bool)
| PInt (z : Z)
| PFloat (repr : string)
| PStr (s : string)
| PList (items : list pyval)
| PDict (entries : list (string * pyval)).

Inductive py_exception : Type :=
| KeyError
| IndexError
| TypeError
| AttributeError
| ServiceError (msg : string).

(** A subscript is a string or an integer. *)
Inductive subscript : Type :=
| Key (k : string)
| Idx (i : nat).

(** The first entry of a dict under a key. *)
Fixpoint dict_get (k : string) (entries : list (string * pyval)) : option pyval :=
  match entries with
  | [] => None
  | (k', v) :: rest => if String.eqb k' k then Some v else dict_get k rest
  end.

(** [v[i]]: a dict raises KeyError on a key it does not have (an integer
    is never a key of a decoded JSON object), a list or a string raises
    IndexError out of range and TypeError on a string subscript, the other
    values are not subscriptable. *)
Definition getitem (v : pyval) (i : subscript) : py_exception + pyval :=
  match v, i with
  | PDict entries, Key k =>
      match dict_get k entries with
      | Some x => inr x
      | None => inl KeyError
      end
  | PDict _, Idx _ => inl KeyError
  | PList items, Idx n =>
      match nth_error items n with
      | Some x => inr x
      | None => inl IndexError
      end
  | PStr s, Idx n =>
      match String.get n s with
      | Some c => inr (PStr (String c EmptyString))
      | None => inl IndexError
      end
  | _, _ => inl TypeError
  end.

(** A request to start a job run: the job's name and its arguments. *)
Record job_run_request : Type := mkRequest {
  JobName : string;
  Arguments : list (string * pyval)
}.

(** What the handler does to the outside: the job-start calls it made, in
    order, and what it printed. *)
Record world : Type := mkWorld {
  started : list job_run_request;
  stdout : list pyval
}.

(** What the handler asks of its libraries and of the job service:
    [urllib.parse.unquote_plus] on a string, the service's answer to a
    job-start call, and [json.dumps]. *)
Class TriggerEnv : Type := {
  unquote_plus : string -> string;
  start_job_run : job_run_request -> py_exception + pyval;
  json_dumps : pyval -> string
}.

(** Computations of the handler: they may raise, and they act on the
    world. *)
Definition handler (A : Type) : Type := world -> (py_exception + A) * world.

#[global] Instance handler_ret : MRet handler :=
  fun A (a : A) w => (inr a, w).

#[global] Instance handler_bind : MBind handler :=
  fun A B (k : A -> handler B) (m : handler A) w =>
    match m w with
    | (inl e, w') => (inl e, w')
    | (inr a, w') => k a w'
    end.

(** A step that touches nothing. *)
Definition pure {A : Type} (r : py_exception + A) : handler A := fun w => (r, w).

(** [event[i1][i2]...]. *)
Fixpoint getpath (v : pyval) (path : list subscript) : handler pyval :=
  match path with
  | [] => mret v
  | i :: rest => x ← pure (getitem v i); getpath x rest
  end.

(** [urllib.parse.unquote_plus(v)]: it starts with [v.replace], which only
    a string has. *)
Definition call_unquote_plus `{TriggerEnv} (v : pyval) : handler string :=
  match v with
  | PStr s => mret (unquote_plus s)
  | _ => pure (inl AttributeError)
  end.

(** [glue.start_job_run(JobName=..., Arguments=...)]: the call is made,
    then the service answers or raises. *)
Definition call_start_job_run `{TriggerEnv} (req : job_run_request)
  : handler pyval :=
  fun w => (start_job_run req, mkWorld (started w ++ [req]) (stdout w)).

Definition print (v : pyval) : handler unit :=
  fun w => (inr tt, mkWorld (started w) (stdout w ++ [v])).

Definition acknowledgment `{TriggerEnv} (bucket_name : pyval)
    (file_name : string) (job_run_id : pyval) : pyval :=
  PDict [ ("statusCode", PInt 200);
          ("body", PStr (json_dumps (PDict
             [ ("message", PStr "Glue job triggered successfully");
               ("bucket", bucket_name);
               ("file", PStr file_name);
               ("jobRunId", job_run_id) ]))) ].

Definition lambda_handler `{TriggerEnv} (event : pyval) : handler pyval :=
  bucket_name ← getpath event [Key "Records"; Idx 0; Key "s3"; Key "bucket"; Key "name"];
  key ← getpath event [Key "Records"; Idx 0; Key "s3"; Key "object"; Key "key"];
  object_key ← call_unquote_plus key;
  let file_name := Py.last_part (Py.split "/" object_key) in
  response ← call_start_job_run
    (mkRequest "consolidate-employee-data-lewis"
               [ ("--dst_bucket_name", bucket_name);
                 ("--file_name", PStr file_name) ]);
  printed_id ← pure (getitem response (Key "JobRunId"));
  _ ← print (acknowledgment bucket_name file_name printed_id);
  returned_id ← pure (getitem response (Key "JobRunId"));
  mret (acknowledgment bucket_name file_name returned_id).

(** An idle world, before the handler runs. *)
Definition idle : world := mkWorld [] [].

(** *** The event as the specification words it *)

(** The field of an object, the first entry of a list. *)
Definition field (k : string) (v : pyval) : option pyval :=
  match v with
  | PDict entries => dict_get k entries
  | _ => None
  end.

Definition first_record (v : pyval) : option pyval :=
  match v with
  | PList (r :: _) => Some r
  | _ => None
  end.

(** The storage part of the first record of the records list. *)
Definition event_s3 (event : pyval) : option pyval :=
  records ← field "Records" event;
  record ← first_record records;
  field "s3" record.

(** The event has the bucket name; the event has the object key. *)
Definition has_bucket_name (event : pyval) : bool :=
  bool_decide (is_Some (s3 ← event_s3 event; b ← field "bucket" s3; field "name" b)).

Definition has_object_key (event : pyval) : bool :=
  bool_decide (is_Some (s3 ← event_s3 event; o ← field "object" s3; field "key" o)).

(** The exceptions a missing field ends in. *)
Definition lookup_error (e : py_exception) : Prop :=
  e = KeyError ∨ e = IndexError ∨ e = TypeError.

(** A payload is malformed when one of the two is missing. *)
Definition malformed (event : pyval) : bool :=
  negb (has_bucket_name event && has_object_key event).

(** ** A small engine and a small service, to run the scripts on examples *)

Module Sample.

(** Decimal digits with an optional minus sign, within 32 bits. *)
Definition cast (c : cell) : option Z :=
  match c with
  | None => None
  | Some s =>
      match DecimalString.NilZero.int_of_string s with
      | None => None
      | Some d =>
          let z := Z.of_int d in
          if ((-2147483648 <=? z) && (z <=? 2147483647))%Z then Some z else None
      end
  end.

Definition to_cell (s : string) : cell :=
  if String.eqb s "" then None else Some s.

Definition of_cell (c : cell) : string := default "" c.

Definition comma : ascii := ascii_of_nat 44.

Definition lines (c : string) : list (list cell) :=
  map (fun l => map to_cell (Py.split comma l))
      (List.filter (fun l => negb (String.eqb l "")) (Py.split Re.newline c)).

Definition read (c : string) : CsvFrame :=
  let rows := lines c in
  mkFrame (length (hd [] rows)) rows.

Definition header : list cell := [Some "PersonID"; Some "FullName"; Some "City"].

Definition read_header (c : string) : option (list (cell * cell * cell)) :=
  match lines c with
  | h :: rows =>
      if bool_decide (h = header)
      then Some (map (fun r => (cell_at 0 r, cell_at 1 r, cell_at 2 r)) rows)
      else None
  | [] => None
  end.

Definition show_key (k : option Z) : string :=
  match k with
  | Some z => DecimalString.NilZero.string_of_int (Z.to_int z)
  | None => ""
  end.

Definition line (r : SnapshotRow) : string :=
  show_key (PersonID r) +:+ "," +:+ of_cell (FullName r) +:+ ","
  +:+ of_cell (City r) +:+ String Re.newline "".

Definition text (rows : list SnapshotRow) : string :=
  "PersonID,FullName,City" +:+ String Re.newline (String.concat "" (map line rows)).

(** The writer leaves a marker and, when [parts] is set, one part file. *)
Definition write (parts : bool) (rows : list SnapshotRow)
  : list (string * string) :=
  ("_SUCCESS", "") ::
  (if parts then [("part-00000-7f3a-c000.csv", text rows)] else []).

Definition engine (parts : bool) : SparkEngine :=
  {| cast_int := cast; read_csv := read; read_csv_header := read_header;
     write_csv := write parts |}.

Definition args : JobArgs := mkArgs "consolidate-employee-data-lewis" "lake" "batch.csv".

Definition now : datetime := mkDatetime 2025 3 14 9 26 53.

Definition nl : string := String Re.newline "".

(** The same engine with a writer that leaves no part file. *)
Definition engine_no_part : SparkEngine := engine false.

(** The batch of the specification's example, as a file. *)
Definition raw_ex : string := "I,3,Carl,SF" +:+ nl +:+ "D,2,," +:+ nl.

(** The bucket before the run of the specification's example. *)
Definition bucket_ex : store :=
  {[ input_key "batch.csv" := raw_ex;
     final_output_key :=
       "PersonID,FullName,City" +:+ nl +:+ "1,Alice,NYC" +:+ nl
       +:+ "2,Bob,LA" +:+ nl ]}.

(** A bucket whose input has five columns. *)
Definition bucket_five : store :=
  {[ input_key "batch.csv" := "1,Alice,NYC,x,y" +:+ nl;
     final_output_key := "PersonID,FullName,City" +:+ nl +:+ "1,Alice,NYC" +:+ nl ]}.

(** A bucket whose input is a Snapshot of one row. *)
Definition bucket_snapshot : store :=
  {[ input_key "batch.csv" := "7,Dana,Rome" +:+ nl;
     final_output_key := "PersonID,FullName,City" +:+ nl +:+ "1,Alice,NYC" +:+ nl ]}.

(** A bucket whose CDC input has a row with an unknown tag. *)
Definition bucket_unknown : store :=
  {[ input_key "batch.csv" := "X,9,Zed,Oslo" +:+ nl +:+ "I,3,Carl,SF" +:+ nl;
     final_output_key := "PersonID,FullName,City" +:+ nl +:+ "1,Alice,NYC" +:+ nl ]}.

(** A bucket with a CDC input and no canonical Snapshot. *)
Definition bucket_first : store :=
  {[ input_key "batch.csv" := raw_ex ]}.

(** A batch with an Insert, an Update and a Delete, as a file, and a
    bucket that holds it and no canonical Snapshot. *)
Definition raw_full : string :=
  "I,3,Carl,SF" +:+ nl +:+ "U,4,Dan,LA" +:+ nl +:+ "D,2,," +:+ nl.

Definition bucket_first_full : store :=
  {[ input_key "batch.csv" := raw_full ]}.

(** A job service that answers every call with the same run identifier. *)
Definition trigger_env : TriggerEnv :=
  {| unquote_plus := fun s => s;
     start_job_run := fun _ => inr (PDict [("JobRunId", PStr "jr_1")]);
     json_dumps := fun _ => "{}" |}.

(** A notification for [incoming/batch.csv] in bucket [lake], and one
    whose record has no object part. *)
Definition event_ok : pyval :=
  PDict [("Records", PList [PDict [("s3", PDict
    [ ("bucket", PDict [("name", PStr "lake")]);
      ("object", PDict [("key", PStr "incoming/batch.csv")]) ])]])].

Definition event_no_key : pyval :=
  PDict [("Records", PList [PDict [("s3", PDict
    [ ("bucket", PDict [("name", PStr "lake")]) ])]])].

End Sample.


(** ** Further notions used by the properties of the second part *)

(** The test both anti-joins make on a row, in one. *)
Definition survives (df : list CdcRow) (r : SnapshotRow) : bool :=
  negb (Spec.key_in (PersonID r) (delete_keys df))
  && negb (Spec.key_in (PersonID r) (keys (updates df))).

(** Selecting the rows of a PersonID. *)
Definition with_key (k : Z) (rows : list SnapshotRow) : list SnapshotRow :=
  List.filter (fun r => DF.key_eq (PersonID r) (Some k)) rows.

(** The fields of a datetime within the width of their format. *)
Definition in_range (a : datetime) : bool :=
  Nat.ltb (year a) (100 * 100) && Nat.ltb (month a) 100 && Nat.ltb (day a) 100
  && Nat.ltb (hour a) 100 && Nat.ltb (minute a) 100 && Nat.ltb (second a) 100.

(** The bucket name and the object key of a notification. *)
Definition event_bucket_name (event : pyval) : option pyval :=
  s3 ← event_s3 event; b ← field "bucket" s3; field "name" b.

Definition event_object_key (event : pyval) : option pyval :=
  s3 ← event_s3 event; o ← field "object" s3; field "key" o.

(** The request the handler sends for a bucket name and a decoded key. *)
Definition request_for (bucket_name : pyval) (object_key : string)
  : job_run_request :=
  mkRequest "consolidate-employee-data-lewis"
    [ ("--dst_bucket_name", bucket_name);
      ("--file_name", PStr (Py.last_part (Py.split "/" object_key))) ].

(** ** Further examples *)

Module Cases.

(** A prior Snapshot with a row whose PersonID did not cast. *)
Definition prior_null : list SnapshotRow :=
  [ mkRow None (Some "Nemo") (Some "Rome");
    mkRow (Some 2%Z) (Some "Bob") (Some "LA") ].

(** The temporary directory and its URI for the sample run. *)
Definition dir : string := temp_output_key (strftime Sample.now).

Definition path : string := temp_output_path "lake" (strftime Sample.now).

(** A bucket as a writer might leave it: a marker and two part files. *)
Definition bucket_temp : store :=
  {[ dir +:+ "_SUCCESS" := "";
     dir +:+ "part-00001.csv" := "second";
     dir +:+ "part-00000.csv" := "first";
     final_output_key := "old" ]}.

(** A bucket with 1001 objects under the temporary directory. *)
Definition bucket_crowded : store :=
  list_to_map (map (fun n => (dir +:+ "obj-" +:+ pad4 n, "x")) (seq 0 1001)).

(** A second later. *)
Definition later : datetime := mkDatetime 2025 3 14 9 26 54.

(** A job service that is down. *)
Definition trigger_env_down : TriggerEnv :=
  {| unquote_plus := fun s => s;
     start_job_run := fun _ => inl (ServiceError "down");
     json_dumps := fun _ => "{}" |}.

(** A notification whose object key is a number. *)
Definition event_number_key : pyval :=
  PDict [("Records", PList [PDict [("s3", PDict
    [ ("bucket", PDict [("name", PStr "lake")]);
      ("object", PDict [("key", PInt 5)]) ])]])].

End Cases.


(** * Properties *)

(** ** Dataframe operations *)

Section merge_facts.
Implicit Types (prior existing : list SnapshotRow) (df : list CdcRow).
Implicit Types (r : SnapshotRow) (k : Z).

Lemma key_eq_key_in (o : option Z) (ks : list (option Z)) :
  existsb (DF.key_eq o) ks = Spec.key_in o (omap id ks).
Proof.
  destruct o as [x|]; simpl.
  - induction ks as [|[y|] ks IH]; simpl; rewrite ?IH; reflexivity.
  - induction ks as [|y ks IH]; simpl; [reflexivity | exact IH].
Qed.

Lemma omap_id_map_PersonID (rows : list SnapshotRow) :
  omap id (map PersonID rows) = keys rows.
Proof.
  unfold keys. induction rows as [|r rows IH]; csimpl; [reflexivity|].
  rewrite IH. reflexivity.
Qed.

Lemma filter_twice {A : Type} (f g : A -> bool) (l : list A) :
  List.filter g (List.filter f l) = List.filter (fun x => f x && g x) l.
Proof.
  induction l as [|x l IH]; simpl; [reflexivity|].
  destruct (f x); simpl; [destruct (g x) |]; rewrite IH; reflexivity.
Qed.

Lemma key_in_true (o : option Z) (ks : list Z) :
  Spec.key_in o ks = true ↔ ∃ k, o = Some k ∧ k ∈ ks.
Proof.
  destruct o as [x|]; simpl.
  - rewrite existsb_exists. split.
    + intros (y & Hy & Heq). apply Z.eqb_eq in Heq. subst y.
      exists x. split; [reflexivity | by apply list_elem_of_In].
    + intros (k & [= <-] & Hk). exists x.
      split; [by apply list_elem_of_In | apply Z.eqb_refl].
  - split; [discriminate | intros (k & ? & _); discriminate].
Qed.

(** The rows that survive both anti-joins, in the words of the keys. *)
Lemma current_spec existing df :
  current existing df =
  List.filter (fun r => negb (Spec.key_in (PersonID r) (delete_keys df))
                        && negb (Spec.key_in (PersonID r) (keys (updates df))))
              existing.
Proof.
  unfold current, DF.left_anti. rewrite filter_twice.
  apply List.filter_ext. intros r.
  rewrite !key_eq_key_in, omap_id_map_PersonID. reflexivity.
Qed.

Lemma cdc_merge_unfold existing df :
  cdc_merge existing df = current existing df ++ inserts df ++ updates df.
Proof. unfold cdc_merge, DF.unionByName. by rewrite <- app_assoc. Qed.

Lemma keys_app (a b : list SnapshotRow) : keys (a ++ b) = keys a ++ keys b.
Proof. apply omap_app. Qed.

Lemma elem_of_keys k (rows : list SnapshotRow) :
  k ∈ keys rows ↔ ∃ r, r ∈ rows ∧ PersonID r = Some k.
Proof. unfold keys. apply list_elem_of_omap. Qed.

Lemma elem_of_List_filter {A : Type} (f : A -> bool) (l : list A) (x : A) :
  x ∈ List.filter f l ↔ x ∈ l ∧ f x = true.
Proof. rewrite !list_elem_of_In. apply filter_In. Qed.

Lemma elem_of_current r existing df :
  r ∈ current existing df ↔
  r ∈ existing
  ∧ (∀ k, PersonID r = Some k →
          (k ∉ delete_keys df) ∧ (k ∉ keys (updates df))).
Proof.
  rewrite current_spec, elem_of_List_filter, andb_true_iff, !negb_true_iff.
  split.
  - intros (Hin & Hd & Hu). split; [done|]. intros k Hk. split; intros Hn.
    + assert (Spec.key_in (PersonID r) (delete_keys df) = true) as E
        by (apply key_in_true; eauto). congruence.
    + assert (Spec.key_in (PersonID r) (keys (updates df)) = true) as E
        by (apply key_in_true; eauto). congruence.
  - intros (Hin & Hk). split; [done|].
    split; apply not_true_is_false; intros (k & Hr & Hm)%key_in_true;
      destruct (Hk k Hr); contradiction.
Qed.

Lemma elem_of_keys_current k existing df :
  k ∈ keys (current existing df) ↔
  k ∈ keys existing ∧ (k ∉ delete_keys df) ∧ (k ∉ keys (updates df)).
Proof.
  split.
  - intros (r & (Hin & Hk)%elem_of_current & Hr)%elem_of_keys.
    destruct (Hk k Hr). split; [|done]. apply elem_of_keys. eauto.
  - intros ((r & Hin & Hr)%elem_of_keys & Hd & Hu).
    apply elem_of_keys. exists r. split; [|done].
    apply elem_of_current. split; [done|].
    intros k' Hk'. assert (k' = k) as -> by congruence. done.
Qed.

Lemma keys_filter_sublist (f : SnapshotRow -> bool) (rows : list SnapshotRow) :
  keys (List.filter f rows) `sublist_of` keys rows.
Proof.
  unfold keys. induction rows as [|r rows IH]; simpl; [constructor|].
  destruct (f r); simpl; destruct (PersonID r); simpl;
    try (by constructor); exact IH.
Qed.

Lemma NoDup_keys_current existing df :
  NoDup (keys existing) → NoDup (keys (current existing df)).
Proof.
  intros Hnd. rewrite current_spec.
  eapply sublist_NoDup; [exact Hnd | apply keys_filter_sublist].
Qed.








Lemma op_is_known tag (x : CdcRow) :
  tag = "I" ∨ tag = "U" ∨ tag = "D" →
  DF.op_is tag x = Spec.known_op x && DF.op_is tag x.
Proof.
  intros Htag. unfold DF.op_is, Spec.known_op.
  destruct (Op x) as [o|]; [|symmetry; apply andb_false_r].
  destruct (bool_decide (o = tag)) eqn:E; [|symmetry; apply andb_false_r].
  apply bool_decide_eq_true in E. subst o.
  destruct Htag as [->|[->| ->]]; reflexivity.
Qed.

Lemma filter_op_known tag df :
  tag = "I" ∨ tag = "U" ∨ tag = "D" →
  List.filter (DF.op_is tag) df =
  List.filter (DF.op_is tag) (List.filter Spec.known_op df).
Proof.
  intros Htag. rewrite filter_twice. apply List.filter_ext.
  intros x. by apply op_is_known.
Qed.

(** The three filters of the job compute the partition of the
    specification. *)
Lemma tagged_filter tag df :
  Spec.tagged tag df = map payload (List.filter (DF.op_is tag) df).
Proof.
  induction df as [|x df IH]; [reflexivity|]. cbn [Spec.tagged List.filter].
  unfold DF.op_is at 1. destruct (Op x) as [o|] eqn:Hop.
  - case_decide as Heq.
    + injection Heq as ->. rewrite bool_decide_eq_true_2 by done.
      cbn [map]. by rewrite IH.
    + rewrite bool_decide_eq_false_2 by congruence. exact IH.
  - case_decide; [discriminate | exact IH].
Qed.

Lemma inserts_Inserts df : inserts df = Spec.Inserts df.
Proof. unfold inserts, Spec.Inserts. by rewrite tagged_filter. Qed.

Lemma updates_Updates df : updates df = Spec.Updates df.
Proof. unfold updates, Spec.Updates. by rewrite tagged_filter. Qed.

Lemma delete_keys_Deletes df : delete_keys df = Spec.Deletes df.
Proof.
  unfold delete_keys, deletes, Spec.Deletes. rewrite tagged_filter.
  induction (List.filter (DF.op_is "D") df) as [|x l IH]; [reflexivity|].
  csimpl. by rewrite IH.
Qed.

End merge_facts.

(** ** The CDC merge *)

Section merge_claims.
Implicit Types (prior existing : list SnapshotRow) (df : list CdcRow).
Implicit Types (r u : SnapshotRow) (k : Z).

(** The merge is the specification's formula, for every batch. *)
Lemma cdc_merge_is_spec prior df :
  cdc_merge prior df =
  Spec.new_snapshot prior (inserts df) (updates df) (delete_keys df).
Proof.
  rewrite cdc_merge_unfold, current_spec. reflexivity.
Qed.

(** The row count of the specification: with disjoint Delete and Update
    keys, the prior rows hit by a Delete and those hit by an Update are
    counted apart. *)
Lemma cdc_merge_length prior df :
  Spec.disjoint_keys (keys (updates df)) (delete_keys df) →
  length (cdc_merge prior df)
  + length (List.filter (fun r => Spec.key_in (PersonID r) (delete_keys df)) prior)
  + length (List.filter (fun r => Spec.key_in (PersonID r) (keys (updates df))) prior)
  = length prior + length (inserts df) + length (updates df).
Proof.
  intros Hdisj. rewrite cdc_merge_unfold, current_spec, !length_app.
  enough (length (List.filter
            (fun r => negb (Spec.key_in (PersonID r) (delete_keys df))
                      && negb (Spec.key_in (PersonID r) (keys (updates df)))) prior)
          + length (List.filter (fun r => Spec.key_in (PersonID r) (delete_keys df)) prior)
          + length (List.filter (fun r => Spec.key_in (PersonID r) (keys (updates df))) prior)
          = length prior) by lia.
  induction prior as [|r prior IH]; simpl; [reflexivity|].
  destruct (Spec.key_in (PersonID r) (delete_keys df)) eqn:Hd;
    destruct (Spec.key_in (PersonID r) (keys (updates df))) eqn:Hu;
    simpl; try lia.
  exfalso. apply key_in_true in Hd as (k & Hk & Hd).
  apply key_in_true in Hu as (k' & Hk' & Hu).
  assert (k' = k) as -> by congruence.
  unfold Spec.disjoint_keys in Hdisj. rewrite Forall_forall in Hdisj.
  exact (Hdisj k Hu Hd).
Qed.

(** C1. For every CDC batch whose Insert, Update and Delete key sets are
    duplicate-free and pairwise disjoint, the merge computes (prior minus
    the rows whose PersonID is in Deletes, minus the rows whose PersonID
    is in Updates) followed by Inserts and Updates, where Inserts, Updates
    and Deletes are the rows of the batch with Op I, U and D; the new
    Snapshot has as many rows as the prior one, less those hit by a
    Delete, less those hit by an Update, plus the Inserts and the Updates;
    for the prior Snapshot (1,Alice,NYC), (2,Bob,LA) and the batch
    (I,3,Carl,SF), (D,2,-,-) the new Snapshot is (1,Alice,NYC),
    (3,Carl,SF). *)
Theorem cdc_merge_clean_batch :
  (∀ prior df,
     Spec.clean_batch df →
     cdc_merge prior df =
     Spec.new_snapshot prior (Spec.Inserts df) (Spec.Updates df) (Spec.Deletes df)
     ∧ length (cdc_merge prior df)
       + length (List.filter
                   (fun r => Spec.key_in (PersonID r) (Spec.Deletes df)) prior)
       + length (List.filter
                   (fun r => Spec.key_in (PersonID r) (keys (Spec.Updates df)))
                   prior)
       = length prior + length (Spec.Inserts df) + length (Spec.Updates df))
  ∧ cdc_merge prior_ex batch_ex =
    [ mkRow (Some 1%Z) (Some "Alice") (Some "NYC");
      mkRow (Some 3%Z) (Some "Carl") (Some "SF") ].
Proof.
  split.
  - intros prior df (_ & _ & _ & _ & _ & Hud).
    rewrite <- inserts_Inserts, <- updates_Updates, <- delete_keys_Deletes in *.
    split.
    + apply cdc_merge_is_spec.
    + by apply cdc_merge_length.
  - vm_compute. reflexivity.
Qed.

Lemma cdc_merge_clean_batch_witness :
  Spec.clean_batch batch_full
  ∧ cdc_merge prior_ex batch_full =
    [ mkRow (Some 3%Z) (Some "Carl") (Some "SF");
      mkRow (Some 1%Z) (Some "Alice") (Some "LA") ].
Proof.
  assert (Spec.clean_batch batch_full) as Hclean.
  { apply (bool_decide_unpack _). vm_compute. exact I. }
  split; [exact Hclean|].
  exact (proj1 (proj1 cdc_merge_clean_batch prior_ex batch_full Hclean)).
Defined.

(** Inserts are unioned as they are: a PersonID of the prior Snapshot
    that the batch inserts again, and a PersonID that the batch inserts
    twice, are in two rows of the new Snapshot. *)
Lemma reinsert_duplicates_key :
  ¬ (NoDup (keys prior_one) →
     NoDup (keys (cdc_merge prior_one batch_reinsert)))
  ∧ ¬ (NoDup (keys prior_one) →
       NoDup (keys (cdc_merge prior_one batch_twice))).
Proof.
  assert (NoDup (keys prior_one)) as Hp.
  { apply (bool_decide_unpack _). vm_compute. exact I. }
  split; intros Hclaim; specialize (Hclaim Hp); vm_compute in Hclaim.
  - apply NoDup_cons in Hclaim as [Hn _]. apply Hn. constructor.
  - apply NoDup_cons in Hclaim as [_ Hclaim].
    apply NoDup_cons in Hclaim as [Hn _]. apply Hn. constructor.
Qed.

(** C2, amended. For every prior Snapshot with one row per PersonID and
    every CDC batch whose Insert and Update rows together carry no PersonID
    twice and whose Insert rows carry no PersonID of the prior Snapshot
    that the batch does not also delete, the new Snapshot has one row per
    PersonID, and its PersonIDs are those of the prior Snapshot that are
    neither in Deletes nor in Updates, those of Inserts and those of
    Updates.  Rows with a null PersonID carry no PersonID. *)
Theorem cdc_merge_unique_keys prior df :
  NoDup (keys prior) →
  NoDup (keys (inserts df) ++ keys (updates df)) →
  (∀ k, k ∈ keys (inserts df) → k ∈ keys prior → k ∈ delete_keys df) →
  NoDup (keys (cdc_merge prior df))
  ∧ ∀ k, k ∈ keys (cdc_merge prior df) ↔
         (k ∈ keys prior ∧ (k ∉ delete_keys df) ∧ (k ∉ keys (updates df)))
         ∨ k ∈ keys (inserts df) ∨ k ∈ keys (updates df).
Proof.
  intros Hprior Hbatch Hfresh.
  rewrite cdc_merge_unfold, !keys_app. split.
  - apply NoDup_app. split; [by apply NoDup_keys_current|]. split; [|done].
    intros k (Hp & Hd & Hu)%elem_of_keys_current [Hi|Hi]%elem_of_app.
    + apply Hd, Hfresh; done.
    + contradiction.
  - intros k. rewrite !elem_of_app, elem_of_keys_current. reflexivity.
Qed.

Lemma cdc_merge_unique_keys_witness :
  NoDup (keys prior_ex) ∧ NoDup (keys (cdc_merge prior_ex batch_replace)).
Proof.
  split; [apply (bool_decide_unpack _); vm_compute; exact I|].
  refine (proj1 (cdc_merge_unique_keys prior_ex batch_replace _ _ _)).
  - apply (bool_decide_unpack _). vm_compute. exact I.
  - apply (bool_decide_unpack _). vm_compute. exact I.
  - intros k Hk%list_elem_of_In _. vm_compute in Hk.
    destruct Hk as [<-|[]]. apply (bool_decide_unpack _). vm_compute. exact I.
Defined.



(** The rows with an unknown tag are in no partition, and the partitions
    and the merge are those of the batch without them. *)
Lemma unknown_op_partitions prior df :
  inserts df = inserts (List.filter Spec.known_op df)
  ∧ updates df = updates (List.filter Spec.known_op df)
  ∧ deletes df = deletes (List.filter Spec.known_op df)
  ∧ cdc_merge prior df = cdc_merge prior (List.filter Spec.known_op df)
  ∧ ∀ x, x ∈ df → Spec.known_op x = false →
         (x ∉ List.filter (DF.op_is "I") df)
         ∧ (x ∉ List.filter (DF.op_is "U") df)
         ∧ (x ∉ List.filter (DF.op_is "D") df).
Proof.
  assert (inserts df = inserts (List.filter Spec.known_op df)) as Hi.
  { unfold inserts. rewrite <- filter_op_known; auto. }
  assert (updates df = updates (List.filter Spec.known_op df)) as Hu.
  { unfold updates. rewrite <- filter_op_known; auto. }
  assert (deletes df = deletes (List.filter Spec.known_op df)) as Hd.
  { unfold deletes. rewrite <- filter_op_known; auto. }
  split; [done|]. split; [done|]. split; [done|]. split.
  { unfold cdc_merge, current. by rewrite <- Hi, <- Hu, <- Hd. }
  intros x _ Hx.
  repeat split; intros [_ Hop]%elem_of_List_filter;
    rewrite op_is_known in Hop by auto; rewrite Hx in Hop; discriminate.
Qed.

End merge_claims.

(** ** Strings and paths *)

Section string_facts.
Implicit Types (s t p : string) (c : ascii).

Lemma append_cons c s t : String c s +:+ t = String c (s +:+ t).
Proof. reflexivity. Qed.

Lemma append_empty_r s : s +:+ "" = s.
Proof. induction s as [|c s IH]; [reflexivity|]. by rewrite append_cons, IH. Qed.

Lemma append_assoc s t p : (s +:+ t) +:+ p = s +:+ t +:+ p.
Proof. induction s as [|c s IH]; [reflexivity|]. by rewrite !append_cons, IH. Qed.

Lemma prefix_append p s : String.prefix p (p +:+ s) = true.
Proof.
  induction p as [|c p IH]; [by destruct s|].
  rewrite append_cons. simpl. destruct (ascii_dec c c); [exact IH | done].
Qed.

Lemma lacks_append c s t : Py.lacks c (s +:+ t) = Py.lacks c s && Py.lacks c t.
Proof.
  induction s as [|a s IH]; [reflexivity|].
  rewrite append_cons. simpl. by rewrite IH, andb_assoc.
Qed.

(** A string without a colon has no occurrence of [s3://]. *)
Lemma replace_lacks_colon s :
  Py.lacks ":" s = true → Py.replace_from "s3://" "" 0 s = s.
Proof.
  induction s as [|a s IH]; [reflexivity|]. intros Hs.
  assert (String.prefix "s3://" (String a s) = false) as Hpre.
  { apply not_true_is_false. intros Hp. apply prefix_correct in Hp.
    destruct s as [|b [|c s]]; try discriminate Hp.
    simpl in Hp. injection Hp as -> -> -> _. discriminate Hs. }
  cbn [Py.replace_from]. rewrite Hpre. f_equal. apply IH.
  simpl in Hs. by apply andb_true_iff in Hs as [_ ?].
Qed.

Lemma replace_scheme s :
  Py.lacks ":" s = true → Py.replace "s3://" "" ("s3://" +:+ s) = s.
Proof.
  intros Hs. unfold Py.replace. change ("s3://" +:+ s) with
    (String "s" (String "3" (String ":" (String "/" (String "/" s))))).
  cbn [Py.replace_from].
  assert (String.prefix "s3://"
            (String "s" (String "3" (String ":" (String "/" (String "/" s)))))
          = true) as -> by (by destruct s).
  simpl. by apply replace_lacks_colon.
Qed.

Lemma split_lacks c s : Py.lacks c s = true → Py.split c s = [s].
Proof.
  induction s as [|a s IH]; [reflexivity|]. simpl.
  intros [Ha Hs]%andb_true_iff. apply negb_true_iff in Ha.
  rewrite Ha, (IH Hs). reflexivity.
Qed.

Lemma split_append c s t :
  Py.lacks c s = true → Py.split c (s +:+ String c t) = s :: Py.split c t.
Proof.
  induction s as [|a s IH].
  - intros _. change ("" +:+ String c t) with (String c t). simpl.
    by rewrite Ascii.eqb_refl.
  - cbn [Py.lacks]. intros [Ha Hs]%andb_true_iff. apply negb_true_iff in Ha.
    rewrite append_cons. cbn [Py.split]. rewrite Ha, (IH Hs). reflexivity.
Qed.

Lemma digit_lacks c n :
  c = "/"%char ∨ c = ":"%char → Ascii.eqb (digit n) c = false.
Proof.
  intros Hc. unfold digit.
  pose proof (Nat.mod_upper_bound n 10 ltac:(lia)) as Hlt.
  destruct (n mod 10) as [|[|[|[|[|[|[|[|[|[|m]]]]]]]]]];
    try (destruct Hc as [-> | ->]; reflexivity).
  lia.
Qed.

Lemma pad2_lacks c n : c = "/"%char ∨ c = ":"%char → Py.lacks c (pad2 n) = true.
Proof. intros Hc. unfold pad2. cbn [Py.lacks]. by rewrite !digit_lacks. Qed.

Lemma strftime_lacks c now :
  c = "/"%char ∨ c = ":"%char → Py.lacks c (strftime now) = true.
Proof.
  intros Hc. unfold strftime, pad4.
  rewrite !lacks_append. cbn [Py.lacks].
  rewrite !digit_lacks, !pad2_lacks by done.
  destruct Hc as [-> | ->]; reflexivity.
Qed.

(** For such a bucket the prefix the script derives is the key prefix of
    the temporary directory. *)
Lemma temp_prefix_key bucket now :
  plain_name bucket = true →
  temp_prefix (temp_output_path bucket (strftime now))
  = temp_output_key (strftime now).
Proof.
  intros [Hslash Hcolon]%andb_true_iff.
  pose proof (strftime_lacks "/" now (or_introl eq_refl)) as Hts.
  pose proof (strftime_lacks ":" now (or_intror eq_refl)) as Htc.
  unfold temp_prefix, temp_output_path, temp_output_key, base_prefix.
  rewrite replace_scheme.
  2: { rewrite !lacks_append, Hcolon, Htc. reflexivity. }
  change ("/" +:+ "des_file" +:+ "/temp_output_" +:+ strftime now +:+ "/")
    with (String "/" ("des_file" +:+ String "/"
            ("temp_output_" +:+ strftime now +:+ String "/" ""))).
  rewrite (split_append "/" bucket) by done.
  rewrite (split_append "/" "des_file") by reflexivity.
  rewrite <- append_assoc.
  rewrite (split_append "/" ("temp_output_" +:+ strftime now)).
  2: { rewrite lacks_append, Hts. reflexivity. }
  simpl. unfold Py.join. simpl.
  rewrite append_empty_r, !append_assoc. reflexivity.
Qed.

Lemma length_append s t : String.length (s +:+ t) = String.length s + String.length t.
Proof. induction s as [|c s IH]; [reflexivity|]. rewrite append_cons. simpl. by rewrite IH. Qed.

Lemma prefix_length p s : String.prefix p s = true → (String.length p ≤ String.length s)%nat.
Proof.
  revert s. induction p as [|a p IH]; intros s; [simpl; lia|].
  destruct s as [|b s]; [discriminate|]. simpl.
  destruct (ascii_dec a b); [|discriminate]. intros Hp%IH. lia.
Qed.

(** Replacement reads its input from the left: over a concatenation, it
    reaches the second part with at most four characters to pass over. *)
Lemma replace_from_append s t k :
  (k ≤ 4)%nat →
  ∃ out k', (k' ≤ 4)%nat
    ∧ Py.replace_from "s3://" "" k (s +:+ t)
      = out +:+ Py.replace_from "s3://" "" k' t.
Proof.
  revert k. induction s as [|c s IH]; intros k Hk.
  - exists "", k. done.
  - rewrite append_cons. cbn [Py.replace_from]. destruct k as [|k].
    + destruct (String.prefix "s3://" (String c (s +:+ t))).
      * destruct (IH (String.length "s3://" - 1) ltac:(simpl; lia))
          as (out & k' & Hk' & ->).
        exists out, k'. done.
      * destruct (IH 0 ltac:(lia)) as (out & k' & Hk' & ->).
        exists (String c out), k'. done.
    + destruct (IH k ltac:(lia)) as (out & k' & Hk' & ->).
      exists out, k'. done.
Qed.

Lemma split_nonempty c s : ∃ w ws, Py.split c s = w :: ws.
Proof.
  induction s as [|a s (w & ws & IH)]; simpl; [eauto|].
  destruct (Ascii.eqb a c); [eauto|]. rewrite IH. eauto.
Qed.

Lemma split_append_sep c s t :
  Py.split c (s +:+ String c t) = Py.split c s ++ Py.split c t.
Proof.
  induction s as [|a s IH].
  - change ("" +:+ String c t) with (String c t). cbn [Py.split].
    by rewrite Ascii.eqb_refl.
  - rewrite append_cons. cbn [Py.split]. destruct (Ascii.eqb a c).
    + by rewrite IH.
    + rewrite IH. destruct (split_nonempty c s) as (w & ws & ->). reflexivity.
Qed.

Lemma join_length_ge sep (l : list string) x :
  (String.length x + String.length sep
   ≤ String.length (Py.join sep (l ++ [x; ""])))%nat.
Proof.
  unfold Py.join. induction l as [|a l IH].
  - change (String.concat sep ([] ++ [x; ""])) with (x +:+ sep +:+ "").
    rewrite !length_append. lia.
  - change ((a :: l) ++ [x; ""]) with (a :: (l ++ [x; ""])).
    destruct (l ++ [x; ""]) as [|b l'] eqn:E.
    { by destruct l. }
    change (String.concat sep (a :: b :: l'))
      with (a +:+ sep +:+ String.concat sep (b :: l')).
    rewrite !length_append. lia.
Qed.

Lemma strftime_length now : String.length (strftime now) = 15.
Proof. unfold strftime. rewrite !length_append. reflexivity. Qed.

Lemma replace_from_skip old new k c s :
  Py.replace_from old new (S k) (String c s) = Py.replace_from old new k s.
Proof. reflexivity. Qed.

(** Replacement leaves a colon-free tail behind [/des_file] as it is. *)
Lemma replace_keeps_tail s t :
  Py.lacks ":" t = true →
  ∃ out, Py.replace "s3://" "" (s +:+ "/des_file" +:+ t) = out +:+ t.
Proof.
  intros Ht. unfold Py.replace.
  destruct (replace_from_append s ("/des_file" +:+ t) 0 ltac:(lia))
    as (out & k & Hk & ->).
  change ("/des_file" +:+ t) with
    (String "/" (String "d" (String "e" (String "s" ("_file" +:+ t))))).
  assert (Py.lacks ":" ("_file" +:+ t) = true) as Hrest
    by (by rewrite lacks_append, Ht).
  destruct k as [|[|[|[|[|k]]]]]; [| | | | |lia];
    rewrite ?replace_from_skip.
  - rewrite replace_lacks_colon by (cbn [Py.lacks]; by rewrite Hrest).
    exists (out +:+ "/des_file"). by rewrite append_assoc.
  - rewrite replace_lacks_colon by (cbn [Py.lacks]; by rewrite Hrest).
    exists (out +:+ "des_file"). by rewrite append_assoc.
  - rewrite replace_lacks_colon by (cbn [Py.lacks]; by rewrite Hrest).
    exists (out +:+ "es_file"). by rewrite append_assoc.
  - rewrite replace_lacks_colon by (cbn [Py.lacks]; by rewrite Hrest).
    exists (out +:+ "s_file"). by rewrite append_assoc.
  - rewrite replace_lacks_colon by exact Hrest.
    exists (out +:+ "_file"). by rewrite append_assoc.
Qed.

(** Whatever the bucket is called, the prefix the script derives ends
    with the timestamped directory name and is longer than the canonical
    key. *)
Lemma temp_prefix_long_at bucket ts :
  Py.lacks "/" ts = true → Py.lacks ":" ts = true → String.length ts = 15 →
  (String.length final_output_key
   < String.length (temp_prefix (temp_output_path bucket ts)))%nat.
Proof.
  intros Hts Htc Hlen.
  assert (temp_output_path bucket ts
          = ("s3://" +:+ bucket) +:+ "/des_file"
            +:+ String "/" (("temp_output_" +:+ ts) +:+ String "/" "")) as ->.
  { unfold temp_output_path, temp_output_key, base_prefix.
    rewrite !append_assoc. reflexivity. }
  destruct (replace_keeps_tail ("s3://" +:+ bucket)
              (String "/" (("temp_output_" +:+ ts) +:+ String "/" "")))
    as [out Hout].
  { cbn [Py.lacks]. rewrite !lacks_append, Htc. reflexivity. }
  unfold temp_prefix. rewrite Hout, !split_append_sep.
  rewrite (split_lacks "/" ("temp_output_" +:+ ts))
    by (by rewrite lacks_append, Hts).
  destruct (split_nonempty "/" out) as (w & ws & ->).
  change (tail ((w :: ws) ++ ["temp_output_" +:+ ts] ++ Py.split "/" ""))
    with (ws ++ ["temp_output_" +:+ ts; ""]).
  pose proof (join_length_ge "/" ws ("temp_output_" +:+ ts)) as Hjoin.
  rewrite length_append, Hlen in Hjoin.
  change (String.length final_output_key) with 25.
  change (String.length "temp_output_") with 12 in Hjoin.
  change (String.length "/") with 1 in Hjoin. lia.
Qed.

Lemma temp_prefix_long bucket now :
  (String.length final_output_key
   < String.length (temp_prefix (temp_output_path bucket (strftime now))))%nat.
Proof.
  apply temp_prefix_long_at.
  - apply strftime_lacks. by left.
  - apply strftime_lacks. by right.
  - apply strftime_length.
Qed.

Lemma final_not_under_prefix bucket now :
  String.prefix (temp_prefix (temp_output_path bucket (strftime now)))
                final_output_key = false.
Proof.
  apply not_true_is_false. intros Hp%prefix_length.
  pose proof (temp_prefix_long bucket now). lia.
Qed.

(** The canonical key is not under the temporary directory. *)
Lemma final_not_under_temp ts :
  String.prefix (temp_output_key ts) final_output_key = false.
Proof. reflexivity. Qed.

End string_facts.

(** ** The object store *)

Section store_facts.
Implicit Types (s : store) (k dir prefix : string) (ks : list string).

Lemma elem_of_list_keys s prefix k :
  k ∈ S3.list_keys s prefix ↔ is_Some (s !! k) ∧ String.prefix prefix k = true.
Proof.
  unfold S3.list_keys. rewrite merge_sort_Permutation, elem_of_List_filter.
  rewrite list_elem_of_fmap. split.
  - intros [([k' c] & -> & Hin%elem_of_map_to_list) Hp]. eauto.
  - intros [[c Hc] Hp]. split; [|done]. exists (k, c).
    split; [reflexivity | by apply elem_of_map_to_list].
Qed.

Lemma overwrite_lookup_outside s dir files k :
  String.prefix dir k = false → S3.overwrite s dir files !! k = s !! k.
Proof.
  intros Hk. unfold S3.overwrite.
  assert (filter (fun kv : string * string => String.prefix dir kv.1 = false) s !! k
          = s !! k) as <-.
  { destruct (s !! k) as [c|] eqn:Hc.
    - by apply map_lookup_filter_Some.
    - apply map_lookup_filter_None. left. done. }
  generalize (filter (fun kv : string * string => String.prefix dir kv.1 = false) s).
  induction files as [|[name c] files IH]; intros m; simpl; [reflexivity|].
  rewrite IH. apply lookup_insert_ne. intros <-.
  rewrite prefix_append in Hk. discriminate.
Qed.

Lemma delete_objects_lookup s ks k :
  k ∉ ks → S3.delete_objects s ks !! k = s !! k.
Proof.
  unfold S3.delete_objects. induction ks as [|k' ks IH]; simpl; [done|].
  intros [Hne Hks]%not_elem_of_cons. rewrite lookup_delete_ne by done. auto.
Qed.

Lemma cleanup_lookup_outside s temp_path k :
  String.prefix (temp_prefix temp_path) k = false →
  (cleanup_temp_folder s temp_path).1 !! k = s !! k.
Proof.
  intros Hk. unfold cleanup_temp_folder.
  destruct (S3.list_objects_v2 s (temp_prefix temp_path)) as [|k0 ks] eqn:E;
    [reflexivity|].
  cbn [fst]. apply delete_objects_lookup. rewrite <- E. intros Hin.
  apply subseteq_take, elem_of_list_keys in Hin as [_ Hp]. congruence.
Qed.

Lemma cleanup_log s temp_path e :
  e ∈ (cleanup_temp_folder s temp_path).2 →
  e = Info_no_temp ∨ (∃ ks, e = Store_delete ks) ∨ (∃ p, e = Info_cleaned p).
Proof.
  unfold cleanup_temp_folder.
  destruct (S3.list_objects_v2 s (temp_prefix temp_path)); simpl.
  - intros ->%list_elem_of_singleton. by left.
  - intros [->|[->|[]%elem_of_nil]%elem_of_cons]%elem_of_cons; right; eauto.
Qed.

(** The loop without a matching key: the store is as it was. *)
Lemma scan_parts_none s final_key objs :
  Forall (fun key => Re.matches Re.part_pattern key = false) objs →
  scan_parts s final_key objs = (s, [Error_no_part]).
Proof.
  induction 1 as [|key objs Hkey _ IH]; cbn [scan_parts]; [reflexivity|].
  by rewrite Hkey.
Qed.

(** The error line is logged by no other path of the loop. *)
Lemma scan_parts_error s final_key objs :
  Error_no_part ∈ (scan_parts s final_key objs).2 →
  scan_parts s final_key objs = (s, [Error_no_part]).
Proof.
  induction objs as [|key objs IH]; cbn [scan_parts]; [reflexivity|].
  destruct (Re.matches Re.part_pattern key); [|exact IH]. cbn [snd].
  intros [?|[?|[?|[]%elem_of_nil]%elem_of_cons]%elem_of_cons]%elem_of_cons;
    discriminate.
Qed.

End store_facts.

(** ** The merge job *)

Section job_facts.
Context `{SparkEngine}.
Implicit Types (args : JobArgs) (now : datetime) (s : store) (raw : string).
Implicit Types (ft : file_type) (frame : CsvFrame) (e : event).

Lemma classify_cdc n : n = 4 → classify n = inr cdc.
Proof. by intros ->. Qed.

Lemma classify_snapshot n : n = 3 → classify n = inr snapshot.
Proof. by intros ->. Qed.

Lemma classify_other n : n ≠ 3 → n ≠ 4 → classify n = inl (ValueError n).
Proof.
  intros H3 H4. unfold classify.
  destruct (Nat.eqb_spec n 4); [done|]. by destruct (Nat.eqb_spec n 3).
Qed.

Lemma read_existing_missing s :
  s !! final_output_key = None → read_existing s = None.
Proof. intros Hs. unfold read_existing. by rewrite Hs. Qed.

Lemma step3_log ft s frame e :
  e ∈ (step3 ft s frame).2 →
  e = Warn_no_existing ∨ ∃ i u d, e = Info_counts i u d.
Proof.
  destruct ft; simpl; [|by intros ?%elem_of_nil].
  unfold load_existing. destruct (read_existing s); simpl.
  - intros ->%list_elem_of_singleton. right. eauto.
  - intros [-> | ->%list_elem_of_singleton]%elem_of_cons; [by left|].
    right. eauto.
Qed.

(** A run whose input is there and has three or four columns goes
    through Steps 3 to 7 and commits. *)
Lemma run_job_steps args now s raw ft :
  s !! input_key (file_name args) = Some raw →
  classify (num_cols (read_csv raw)) = inr ft →
  let path := temp_output_path (dst_bucket_name args) (strftime now) in
  let df := (step3 ft s (read_csv raw)).1 in
  let s4 := store_at_promotion now s ft (read_csv raw) in
  let s5 := (move_part_to_final s4 path final_output_key).1 in
  run_job args now s =
  (Committed, (cleanup_temp_folder s5 path).1,
   [Info_detected ft] ++ (step3 ft s (read_csv raw)).2
   ++ [Info_final_count (length df);
       Store_write (temp_output_key (strftime now)) df;
       Info_written path]
   ++ (move_part_to_final s4 path final_output_key).2
   ++ (cleanup_temp_folder s5 path).2 ++ [Job_commit]).
Proof.
  intros Hraw Hft. cbv zeta. unfold run_job, store_at_promotion.
  rewrite Hraw, Hft.
  destruct (step3 ft s (read_csv raw)) as [df log3]. cbn [fst snd].
  destruct (move_part_to_final _ _ _) as [s5 log5]. cbn [fst snd].
  destruct (cleanup_temp_folder _ _) as [s6 log6]. reflexivity.
Qed.

Lemma written_app (l1 l2 : list event) : written (l1 ++ l2) = written l1 ++ written l2.
Proof. apply omap_app. Qed.

Lemma written_nil (l : list event) :
  (∀ e, e ∈ l → ∀ dir df, e ≠ Store_write dir df) → written l = [].
Proof.
  induction l as [|e l IH]; [reflexivity|]. intros Hl.
  unfold written. cbn [omap list_omap]. fold (written l).
  rewrite IH by (intros; apply Hl; by constructor).
  destruct e; try reflexivity. exfalso. eapply Hl; [constructor | reflexivity].
Qed.

Lemma scan_parts_log s final_key objs e :
  e ∈ (scan_parts s final_key objs).2 → ∀ dir df, e ≠ Store_write dir df.
Proof.
  induction objs as [|key objs IH]; cbn [scan_parts].
  - cbn [snd]. by intros ->%list_elem_of_singleton.
  - destruct (Re.matches Re.part_pattern key); [|exact IH]. cbn [snd].
    intros [-> | [-> | [-> | []%elem_of_nil]%elem_of_cons]%elem_of_cons]%elem_of_cons;
      done.
Qed.

(** What such a run hands to the writer is the frame of Step 3, once. *)
Lemma run_job_written args now s raw ft :
  s !! input_key (file_name args) = Some raw →
  classify (num_cols (read_csv raw)) = inr ft →
  (run_job args now s).1.1 = Committed
  ∧ written (run_job args now s).2 = [(step3 ft s (read_csv raw)).1].
Proof.
  intros Hraw Hft. rewrite (run_job_steps _ _ _ _ _ Hraw Hft). cbv zeta.
  split; [reflexivity|]. cbn [snd]. rewrite !written_app.
  rewrite (written_nil (step3 _ _ _).2).
  2: { intros e [-> | (?&?&?&->)]%step3_log; done. }
  rewrite (written_nil (move_part_to_final _ _ _).2).
  2: { intros e. apply scan_parts_log. }
  rewrite (written_nil (cleanup_temp_folder _ _).2).
  2: { intros e [-> | [[? ->] | [? ->]]]%cleanup_log; done. }
  reflexivity.
Qed.

End job_facts.

Section job_claims.
Context `{SparkEngine}.
Implicit Types (args : JobArgs) (now : datetime) (s : store) (raw : string).
Implicit Types (ft : file_type) (frame : CsvFrame) (e : event).

(** What a CDC run hands to the writer is the merge of the canonical
    Snapshot, or of nothing when it cannot be read, with the batch. *)
Lemma run_job_cdc args now s raw :
  s !! input_key (file_name args) = Some raw →
  num_cols (read_csv raw) = 4 →
  (run_job args now s).1.1 = Committed
  ∧ written (run_job args now s).2 =
    [cdc_merge (load_existing s).1 (map to_cdc (csv_rows (read_csv raw)))].
Proof.
  intros Hraw Hn.
  destruct (run_job_written args now s raw cdc Hraw (classify_cdc _ Hn))
    as [Hc Hw].
  split; [exact Hc|]. rewrite Hw. cbn [step3].
  by destruct (load_existing s).
Qed.

(** C5. For every input batch whose column count is neither 3 nor 4 the
    job ends with the ValueError of Step 2 (the specification's
    UnexpectedSchema) before any write: the bucket is as it was, the
    canonical key included, nothing was handed to the writer and no store
    operation was made. *)
Theorem unexpected_schema_aborts args now s raw :
  s !! input_key (file_name args) = Some raw →
  num_cols (read_csv raw) ≠ 3 →
  num_cols (read_csv raw) ≠ 4 →
  run_job args now s = (Raised (ValueError (num_cols (read_csv raw))), s, [])
  ∧ (run_job args now s).1.2 !! final_output_key = s !! final_output_key
  ∧ written (run_job args now s).2 = [].
Proof.
  intros Hraw H3 H4.
  assert (run_job args now s
          = (Raised (ValueError (num_cols (read_csv raw))), s, [])) as Hrun.
  { unfold run_job. by rewrite Hraw, (classify_other _ H3 H4). }
  rewrite Hrun. done.
Qed.

(** C7. For every 3-column input batch the frame handed to the writer is
    the batch itself, its columns bound by position to PersonID, FullName
    and City and PersonID cast to integer; it is the same whatever else the
    bucket holds, the canonical Snapshot included. *)
Theorem snapshot_batch_verbatim args now s raw :
  s !! input_key (file_name args) = Some raw →
  num_cols (read_csv raw) = 3 →
  (run_job args now s).1.1 = Committed
  ∧ written (run_job args now s).2 =
    [map (fun row => mkRow (cast_int (nth 0 row None)) (nth 1 row None)
                           (nth 2 row None))
         (csv_rows (read_csv raw))]
  ∧ ∀ s', s' !! input_key (file_name args) = Some raw →
          written (run_job args now s').2 = written (run_job args now s).2.
Proof.
  intros Hraw Hn.
  pose proof (classify_snapshot _ Hn) as Hft.
  destruct (run_job_written args now s raw snapshot Hraw Hft) as [Hc Hw].
  split; [exact Hc|]. split; [exact Hw|].
  intros s' Hraw'.
  destruct (run_job_written args now s' raw snapshot Hraw' Hft) as [_ Hw'].
  by rewrite Hw, Hw'.
Qed.

(** C6. For every CDC batch, when the canonical Snapshot cannot be read
    (there is none), the job warns, goes on with an empty prior Snapshot
    and hands to the writer the rows of the batch with Op I followed by
    those with Op U, which is the merge of the batch into an empty
    Snapshot: the Delete rows have no effect. *)
Theorem first_run_merge args now s raw :
  s !! input_key (file_name args) = Some raw →
  num_cols (read_csv raw) = 4 →
  read_existing s = None →
  let df := map to_cdc (csv_rows (read_csv raw)) in
  (run_job args now s).1.1 = Committed
  ∧ load_existing s = ([], [Warn_no_existing])
  ∧ written (run_job args now s).2 = [Spec.Inserts df ++ Spec.Updates df]
  ∧ Spec.Inserts df ++ Spec.Updates df
    = Spec.new_snapshot [] (Spec.Inserts df) (Spec.Updates df) (Spec.Deletes df).
Proof.
  intros Hraw Hn Hread df.
  destruct (run_job_cdc args now s raw Hraw Hn) as [Hc Hw].
  assert (load_existing s = ([], [Warn_no_existing])) as Hload.
  { unfold load_existing. by rewrite Hread. }
  split; [exact Hc|]. split; [exact Hload|]. split; [|reflexivity].
  rewrite Hw, Hload. cbn [fst]. fold df.
  by rewrite cdc_merge_unfold, inserts_Inserts, updates_Updates.
Qed.

(** C10. For every CDC batch, the rows whose Op tag is not exactly I, U or
    D are in none of the three partitions, the partitions are those of the
    batch without these rows, and the run commits, without an error, with
    the merge of the batch without these rows handed to the writer. *)
Theorem unknown_op_discarded args now s raw :
  s !! input_key (file_name args) = Some raw →
  num_cols (read_csv raw) = 4 →
  let df := map to_cdc (csv_rows (read_csv raw)) in
  let known := List.filter Spec.known_op df in
  (∀ x, x ∈ df → Spec.known_op x = false →
        (x ∉ List.filter (DF.op_is "I") df)
        ∧ (x ∉ List.filter (DF.op_is "U") df)
        ∧ (x ∉ List.filter (DF.op_is "D") df))
  ∧ inserts df = inserts known
  ∧ updates df = updates known
  ∧ deletes df = deletes known
  ∧ (run_job args now s).1.1 = Committed
  ∧ written (run_job args now s).2 = [cdc_merge (load_existing s).1 known].
Proof.
  intros Hraw Hn df known.
  destruct (unknown_op_partitions (load_existing s).1 df)
    as (Hi & Hu & Hd & Hm & Hx).
  destruct (run_job_cdc args now s raw Hraw Hn) as [Hc Hw].
  repeat split; try done.
  - by apply Hx.
  - by apply Hx.
  - by apply Hx.
  - rewrite Hw. f_equal. exact Hm.
Qed.

(** C3, amended. In Step 5, when no object under the temporary prefix
    matches the part-file pattern, the job logs the error, copies nothing,
    goes on to the cleanup and commits: no error is raised. *)
Theorem no_part_file_commits args now s raw ft :
  s !! input_key (file_name args) = Some raw →
  classify (num_cols (read_csv raw)) = inr ft →
  let path := temp_output_path (dst_bucket_name args) (strftime now) in
  let s4 := store_at_promotion now s ft (read_csv raw) in
  Forall (fun key => Re.matches Re.part_pattern key = false)
         (S3.list_keys s4 (temp_prefix path)) →
  move_part_to_final s4 path final_output_key = (s4, [Error_no_part])
  ∧ (run_job args now s).1.1 = Committed
  ∧ (run_job args now s).1.2 = (cleanup_temp_folder s4 path).1
  ∧ Error_no_part ∈ (run_job args now s).2
  ∧ last (run_job args now s).2 = Some Job_commit
  ∧ ∀ src dst, Store_copy src dst ∉ (run_job args now s).2.
Proof.
  intros Hraw Hft path s4 Hnone.
  assert (move_part_to_final s4 path final_output_key = (s4, [Error_no_part]))
    as Hmove by (by apply scan_parts_none).
  pose proof (run_job_steps args now s raw ft Hraw Hft) as Hrun.
  cbv zeta in Hrun. fold path in Hrun. fold s4 in Hrun.
  rewrite Hmove in Hrun. cbn [fst snd] in Hrun. rewrite Hrun. cbn [fst snd].
  split; [exact Hmove|]. split; [reflexivity|]. split; [reflexivity|].
  split; [|split].
  - rewrite !elem_of_app. right. right. right. left. constructor.
  - rewrite !app_assoc. apply last_snoc.
  - intros src dst. rewrite !elem_of_app, !elem_of_cons, !elem_of_nil.
    intros [[?|[]]|[Hs|[[?|[?|[?|[]]]]|[[?|[]]|[Hc|[?|[]]]]]]];
      try discriminate.
    + apply step3_log in Hs as [?|(?&?&?&?)]; discriminate.
    + apply cleanup_log in Hc as [?|[[? ?]|[? ?]]]; discriminate.
Qed.

(** C4. For every run in which Step 5 finds no part file, the content of
    the canonical output key after the run is its content before the
    run. *)
Theorem no_part_keeps_canonical args now s :
  Error_no_part ∈ (run_job args now s).2 →
  (run_job args now s).1.2 !! final_output_key = s !! final_output_key.
Proof.
  intros Herr.
  destruct (s !! input_key (file_name args)) as [raw|] eqn:Hraw.
  2: { unfold run_job in *. rewrite Hraw in *. reflexivity. }
  destruct (classify (num_cols (read_csv raw))) as [err|ft] eqn:Hft.
  { unfold run_job in *. rewrite Hraw, Hft in *. reflexivity. }
  pose proof (run_job_steps args now s raw ft Hraw Hft) as Hrun.
  cbv zeta in Hrun. rewrite Hrun in Herr |- *. cbn [fst snd] in *.
  set (path := temp_output_path (dst_bucket_name args) (strftime now)) in *.
  set (s4 := store_at_promotion now s ft (read_csv raw)) in *.
  assert (move_part_to_final s4 path final_output_key = (s4, [Error_no_part]))
    as Hmove.
  { apply scan_parts_error.
    rewrite !elem_of_app, !elem_of_cons, !elem_of_nil in Herr.
    destruct Herr as [[?|[]]|[Hs|[[?|[?|[?|[]]]]|[Hm|[Hc|[?|[]]]]]]];
      try discriminate.
    - apply step3_log in Hs as [?|(?&?&?&?)]; discriminate.
    - exact Hm.
    - apply cleanup_log in Hc as [?|[[? ?]|[? ?]]]; discriminate. }
  rewrite Hmove. cbn [fst].
  rewrite cleanup_lookup_outside by apply final_not_under_prefix.
  unfold s4, store_at_promotion, write_temp.
  apply overwrite_lookup_outside, final_not_under_temp.
Qed.

End job_claims.

(** ** The trigger adapter *)

Section trigger_facts.
Context `{TriggerEnv}.
Implicit Types (v event : pyval) (w : world) (k : string) (e : py_exception).

(** A string subscript finds the field, or raises. *)
Lemma getitem_key v k :
  match field k v with
  | Some x => getitem v (Key k) = inr x
  | None => ∃ e, getitem v (Key k) = inl e ∧ lookup_error e
  end.
Proof.
  unfold lookup_error.
  destruct v; simpl; eauto 6. destruct (dict_get k entries); eauto 6.
Qed.

(** The subscript 0 finds the first record, or raises, or, on a string,
    yields a string, which has no fields. *)
Lemma getitem_first v :
  match first_record v with
  | Some x => getitem v (Idx 0) = inr x
  | None => (∃ e, getitem v (Idx 0) = inl e ∧ lookup_error e)
            ∨ (∃ c, getitem v (Idx 0) = inr (PStr c))
  end.
Proof.
  unfold lookup_error.
  destruct v as [| | | |s|items|entries]; simpl; eauto 7.
  - destruct s; simpl; eauto 7.
  - destruct items; simpl; eauto 7.
Qed.

Lemma getpath_cons v i path w :
  getpath v (i :: path) w =
  match getitem v i with
  | inl e => (inl e, w)
  | inr x => getpath x path w
  end.
Proof. simpl. unfold mbind, handler_bind, pure. by destruct (getitem v i). Qed.

(** Subscripting touches nothing. *)
Lemma getpath_world v path w : (getpath v path w).2 = w.
Proof.
  revert v. induction path as [|i path IH]; intros v; [reflexivity|].
  rewrite getpath_cons. destruct (getitem v i); [reflexivity | apply IH].
Qed.

(** The two paths of the handler, against the fields of the event. *)
Lemma getpath_fields event k1 k2 w :
  match s3 ← event_s3 event; o ← field k1 s3; field k2 o with
  | Some x =>
      getpath event [Key "Records"; Idx 0; Key "s3"; Key k1; Key k2] w = (inr x, w)
  | None =>
      ∃ e, getpath event [Key "Records"; Idx 0; Key "s3"; Key k1; Key k2] w
           = (inl e, w) ∧ lookup_error e
  end.
Proof.
  unfold event_s3. rewrite getpath_cons.
  pose proof (getitem_key event "Records") as H1.
  destruct (field "Records" event) as [records|]; cbn [mbind option_bind].
  2: { destruct H1 as (e & -> & He). eauto. }
  rewrite H1, getpath_cons. clear H1.
  pose proof (getitem_first records) as H2.
  destruct (first_record records) as [record|]; cbn [mbind option_bind].
  2: { destruct H2 as [(e & -> & He)|(c & ->)]; [eauto|].
       rewrite getpath_cons. simpl. exists TypeError. unfold lookup_error. eauto. }
  rewrite H2, getpath_cons. clear H2.
  pose proof (getitem_key record "s3") as H3.
  destruct (field "s3" record) as [s3|]; cbn [mbind option_bind].
  2: { destruct H3 as (e & -> & He). eauto. }
  rewrite H3, getpath_cons. clear H3.
  pose proof (getitem_key s3 k1) as H4.
  destruct (field k1 s3) as [o|]; cbn [mbind option_bind].
  2: { destruct H4 as (e & -> & He). eauto. }
  rewrite H4, getpath_cons. clear H4.
  pose proof (getitem_key o k2) as H5.
  destruct (field k2 o) as [x|].
  2: { destruct H5 as (e & -> & He). eauto. }
  rewrite H5. reflexivity.
Qed.

(** C8. For every notification payload that lacks the records list, the
    bucket name or the object key, the handler raises (KeyError,
    IndexError or TypeError: the specification's MalformedEvent) and leaves
    the world as it was: no job-start call is made. *)
Theorem malformed_event_no_dispatch event w :
  malformed event = true →
  ∃ e, lambda_handler event w = (inl e, w)
       ∧ (e = KeyError ∨ e = IndexError ∨ e = TypeError)
       ∧ started (lambda_handler event w).2 = started w.
Proof.
  intros Hmal.
  enough (∃ e, lambda_handler event w = (inl e, w) ∧ lookup_error e)
    as (e & Hrun & He).
  { exists e. rewrite Hrun. done. }
  unfold malformed, has_bucket_name, has_object_key in Hmal.
  apply negb_true_iff, andb_false_iff in Hmal.
  pose proof (getpath_fields event "bucket" "name" w) as Hb.
  pose proof (getpath_fields event "object" "key" w) as Hk.
  unfold lambda_handler.
  unfold mbind at 1. unfold handler_bind at 1.
  destruct (s3 ← event_s3 event; b ← field "bucket" s3; field "name" b)
    as [bucket_name|].
  2: { destruct Hb as (e & -> & He). eauto. }
  rewrite Hb.
  unfold mbind at 1. unfold handler_bind at 1.
  destruct (s3 ← event_s3 event; o ← field "object" s3; field "key" o)
    as [key|].
  2: { destruct Hk as (e & -> & He). eauto. }
  destruct Hmal as [Hmal|Hmal]; apply bool_decide_eq_false in Hmal;
    destruct Hmal; eauto.
Qed.

End trigger_facts.

(** ** The scripts on the sample engine *)

Section examples.

(** The example of the specification, through the whole job: the canonical
    file ends up with Alice and Carl. *)
Example run_job_ex :
  (@run_job (Sample.engine true) Sample.args Sample.now Sample.bucket_ex).1.2
    !! final_output_key
  = Some ("PersonID,FullName,City" +:+ Sample.nl +:+ "1,Alice,NYC" +:+ Sample.nl
          +:+ "3,Carl,SF" +:+ Sample.nl).
Proof. vm_compute. reflexivity. Qed.

(** With a writer that leaves no part file, Step 5 finds no match, and
    the run commits all the same. *)
Lemma no_part_run_commits :
  ¬ (Forall (fun key => Re.matches Re.part_pattern key = false)
       (S3.list_keys
          (@store_at_promotion Sample.engine_no_part Sample.now Sample.bucket_ex
             cdc (Sample.read Sample.raw_ex))
          (temp_prefix (temp_output_path "lake" (strftime Sample.now)))) →
     ∃ e, (@run_job Sample.engine_no_part Sample.args Sample.now
             Sample.bucket_ex).1.1 = Raised e).
Proof.
  intros Hclaim. destruct Hclaim as [e He].
  - apply (bool_decide_unpack _). vm_compute. exact I.
  - vm_compute in He. discriminate He.
Qed.

Lemma no_part_file_commits_witness :
  (@run_job Sample.engine_no_part Sample.args Sample.now Sample.bucket_ex).1.1
  = Committed.
Proof.
  refine (proj1 (proj2 (@no_part_file_commits Sample.engine_no_part Sample.args
                    Sample.now Sample.bucket_ex Sample.raw_ex cdc _ _ _))).
  - vm_compute. reflexivity.
  - vm_compute. reflexivity.
  - apply (bool_decide_unpack _). vm_compute. exact I.
Defined.

Lemma no_part_keeps_canonical_witness :
  (@run_job Sample.engine_no_part Sample.args Sample.now Sample.bucket_ex).1.2
    !! final_output_key
  = Sample.bucket_ex !! final_output_key.
Proof.
  refine (@no_part_keeps_canonical Sample.engine_no_part Sample.args Sample.now
            Sample.bucket_ex _).
  apply (bool_decide_unpack _). vm_compute. exact I.
Defined.

Lemma unexpected_schema_aborts_witness :
  @run_job (Sample.engine true) Sample.args Sample.now Sample.bucket_five
  = (Raised (ValueError 5), Sample.bucket_five, []).
Proof.
  refine (proj1 (@unexpected_schema_aborts (Sample.engine true) Sample.args
                   Sample.now Sample.bucket_five
                   ("1,Alice,NYC,x,y" +:+ Sample.nl) _ _ _)).
  - vm_compute. reflexivity.
  - vm_compute. lia.
  - vm_compute. lia.
Defined.

Lemma snapshot_batch_verbatim_witness :
  written (@run_job (Sample.engine true) Sample.args Sample.now
             Sample.bucket_snapshot).2
  = [[mkRow (Some 7%Z) (Some "Dana") (Some "Rome")]].
Proof.
  refine (proj1 (proj2 (@snapshot_batch_verbatim (Sample.engine true) Sample.args
                    Sample.now Sample.bucket_snapshot
                    ("7,Dana,Rome" +:+ Sample.nl) _ _))).
  - vm_compute. reflexivity.
  - vm_compute. reflexivity.
Defined.

Lemma first_run_merge_witness :
  written (@run_job (Sample.engine true) Sample.args Sample.now
             Sample.bucket_first_full).2
  = [[ mkRow (Some 3%Z) (Some "Carl") (Some "SF");
       mkRow (Some 4%Z) (Some "Dan") (Some "LA") ]].
Proof.
  refine (proj1 (proj2 (proj2 (@first_run_merge (Sample.engine true) Sample.args
                    Sample.now Sample.bucket_first_full Sample.raw_full _ _ _)))).
  - vm_compute. reflexivity.
  - vm_compute. reflexivity.
  - vm_compute. reflexivity.
Defined.

Lemma unknown_op_discarded_witness :
  written (@run_job (Sample.engine true) Sample.args Sample.now
             Sample.bucket_unknown).2
  = [[mkRow (Some 1%Z) (Some "Alice") (Some "NYC");
      mkRow (Some 3%Z) (Some "Carl") (Some "SF")]].
Proof.
  refine (proj2 (proj2 (proj2 (proj2 (proj2
            (@unknown_op_discarded (Sample.engine true) Sample.args Sample.now
               Sample.bucket_unknown
               ("X,9,Zed,Oslo" +:+ Sample.nl +:+ "I,3,Carl,SF" +:+ Sample.nl)
               _ _)))))).
  - vm_compute. reflexivity.
  - vm_compute. reflexivity.
Defined.

Lemma malformed_event_no_dispatch_witness :
  ∃ e, @lambda_handler Sample.trigger_env Sample.event_no_key idle = (inl e, idle)
       ∧ (e = KeyError ∨ e = IndexError ∨ e = TypeError)
       ∧ started (@lambda_handler Sample.trigger_env Sample.event_no_key idle).2
         = started idle.
Proof.
  refine (@malformed_event_no_dispatch Sample.trigger_env Sample.event_no_key
            idle _).
  vm_compute. reflexivity.
Defined.

(** A well-formed notification starts one run, with the bucket and the
    last segment of the key. *)
Example lambda_handler_ex :
  started (@lambda_handler Sample.trigger_env Sample.event_ok idle).2
  = [mkRequest "consolidate-employee-data-lewis"
       [("--dst_bucket_name", PStr "lake"); ("--file_name", PStr "batch.csv")]].
Proof. vm_compute. reflexivity. Qed.

End examples.

(** * Further properties of the two scripts *)

(** ** Path segments and the part-file pattern *)

Section path_facts.
Implicit Types (s t p : string) (c : ascii).

Lemma split_pieces_lack c s : Forall (fun w => Py.lacks c w = true) (Py.split c s).
Proof.
  induction s as [|a s IH]; [by repeat constructor|]. cbn [Py.split].
  destruct (Ascii.eqb a c) eqn:Ha; [by constructor|].
  destruct (Py.split c s) as [|w ws]; [by repeat constructor; cbn; rewrite Ha|].
  apply Forall_cons in IH as [Hw Hws]. constructor; [|done].
  cbn [Py.lacks]. by rewrite Ha, Hw.
Qed.

Lemma last_part_In (l : list string) : l ≠ [] → Py.last_part l ∈ l.
Proof.
  unfold Py.last_part. induction l as [|x l IH]; [done|]. intros _.
  destruct l as [|y l]; [by constructor|].
  change (List.last (x :: y :: l) "") with (List.last (y :: l) "").
  constructor. by apply IH.
Qed.

Lemma last_part_snoc (l : list string) x : Py.last_part (l ++ [x]) = x.
Proof. unfold Py.last_part. apply last_last. Qed.

Lemma star_true (k : string -> bool) s :
  Re.star k s = true ↔
  ∃ a b, s = a +:+ b ∧ Py.lacks Re.newline a = true ∧ k b = true.
Proof.
  induction s as [|c s IH]; cbn [Re.star].
  - rewrite orb_false_r. split.
    + intros Hk. by exists "", "".
    + intros (a & b & Hs & _ & Hk). destruct a; [|discriminate].
      by rewrite Hs.
  - rewrite orb_true_iff, andb_true_iff, IH. split.
    + intros [Hk|[Hc (a & b & -> & Ha & Hk)]].
      * by exists "", (String c s).
      * exists (String c a), b. cbn [Py.lacks]. by rewrite Hc, Ha.
    + intros (a & b & Hs & Ha & Hk). destruct a as [|c' a].
      * left. by rewrite Hs.
      * rewrite append_cons in Hs. injection Hs as -> ->.
        cbn [Py.lacks] in Ha. apply andb_true_iff in Ha as [Hc Ha].
        right. split; [done|]. by exists a, b.
Qed.

Lemma matches_literal l (p : list Re.token) s :
  Re.matches (Re.literal l ++ p) s = true ↔
  ∃ t, s = l +:+ t ∧ Re.matches p t = true.
Proof.
  unfold Re.literal. revert s.
  induction l as [|c l IH]; intros s; cbn [list_ascii_of_string map app].
  - split; [intros Hp; by exists s | by intros (t & -> & Hp)].
  - cbn [Re.matches]. destruct s as [|a s].
    + split; [discriminate | intros (t & Hs & _); discriminate].
    + rewrite andb_true_iff, IH, Ascii.eqb_eq. split.
      * intros [-> (t & -> & Hp)]. by exists t.
      * intros (t & Hs & Hp). rewrite append_cons in Hs.
        injection Hs as -> ->. split; [done|]. by exists t.
Qed.

Lemma matches_dollar s :
  Re.matches [Re.Dollar] s = true ↔ s = "" ∨ s = String Re.newline "".
Proof.
  cbn [Re.matches]. rewrite andb_true_r, orb_true_iff, !bool_decide_eq_true.
  reflexivity.
Qed.

(** X1. [re.match(r".*/part-.*\.csv$", key)] holds exactly for the keys
    made of a newline-free text, [/part-], a newline-free text and [.csv],
    with at most one newline after it. *)
Theorem part_pattern_matches key :
  Re.matches Re.part_pattern key = true ↔
  ∃ a b e, key = a +:+ "/part-" +:+ b +:+ ".csv" +:+ e
           ∧ Py.lacks Re.newline a = true ∧ Py.lacks Re.newline b = true
           ∧ (e = "" ∨ e = String Re.newline "").
Proof.
  unfold Re.part_pattern. cbn [Re.matches]. rewrite star_true. split.
  - intros (a & t & -> & Ha & Ht).
    apply matches_literal in Ht as (t' & -> & Ht'). cbn [Re.matches] in Ht'.
    apply star_true in Ht' as (b & t'' & -> & Hb & Ht'').
    apply matches_literal in Ht'' as (e & -> & He%matches_dollar).
    by exists a, b, e.
  - intros (a & b & e & -> & Ha & Hb & He).
    exists a, ("/part-" +:+ b +:+ ".csv" +:+ e). split; [done|]. split; [done|].
    apply matches_literal. exists (b +:+ ".csv" +:+ e). split; [done|].
    cbn [Re.matches]. apply star_true. exists b, (".csv" +:+ e).
    split; [done|]. split; [done|].
    apply matches_literal. exists e. split; [done|]. by apply matches_dollar.
Qed.

(** X2. The file name the adapter passes on is the part of the decoded key
    after its last slash: it has no slash, and for a key [dir/name] with a
    slash-free [name] it is [name]. *)
Theorem file_name_is_last_segment :
  (∀ object_key, Py.lacks "/" (Py.last_part (Py.split "/" object_key)) = true)
  ∧ ∀ dir name, Py.lacks "/" name = true →
      Py.last_part (Py.split "/" (dir +:+ "/" +:+ name)) = name.
Proof.
  split.
  - intros object_key.
    pose proof (split_pieces_lack "/" object_key) as Hall.
    rewrite Forall_forall in Hall. apply Hall, last_part_In.
    by destruct (split_nonempty "/" object_key) as (w & ws & ->).
  - intros dir name Hname.
    change (dir +:+ "/" +:+ name) with (dir +:+ String "/" name).
    rewrite split_append_sep, (split_lacks _ _ Hname). apply last_part_snoc.
Qed.

Lemma file_name_is_last_segment_witness :
  Py.last_part (Py.split "/" ("incoming/2025" +:+ "/" +:+ "batch.csv"))
  = "batch.csv".
Proof.
  refine (proj2 file_name_is_last_segment "incoming/2025" "batch.csv" _).
  reflexivity.
Defined.

(** X3. For a bucket name without slash and colon, the prefix that
    promotion and cleanup derive from the temporary output URI by
    replace, split and join is the key prefix of the temporary
    directory. *)
Theorem temp_prefix_is_temp_directory bucket now :
  plain_name bucket = true →
  temp_prefix (temp_output_path bucket (strftime now))
  = base_prefix +:+ "/temp_output_" +:+ strftime now +:+ "/".
Proof. intros Hb. by rewrite temp_prefix_key. Qed.

Lemma temp_prefix_is_temp_directory_witness :
  temp_prefix (temp_output_path "lake" (strftime Sample.now))
  = base_prefix +:+ "/temp_output_" +:+ strftime Sample.now +:+ "/".
Proof.
  refine (temp_prefix_is_temp_directory "lake" Sample.now _). reflexivity.
Defined.

End path_facts.

(** ** More on the CDC merge *)

Section merge_more.
Implicit Types (prior existing : list SnapshotRow) (df : list CdcRow).
Implicit Types (r u : SnapshotRow) (k : Z).

Lemma current_filter existing df :
  current existing df = List.filter (survives df) existing.
Proof. apply current_spec. Qed.

Lemma current_app a b df : current (a ++ b) df = current a df ++ current b df.
Proof. rewrite !current_filter. apply List.filter_app. Qed.

Lemma current_current existing df :
  current (current existing df) df = current existing df.
Proof.
  rewrite !current_filter, filter_twice. apply List.filter_ext.
  intros r. by destruct (survives df r).
Qed.

Lemma current_all existing df :
  (∀ r, r ∈ existing → survives df r = true) → current existing df = existing.
Proof.
  rewrite current_filter. induction existing as [|r l IH]; [done|].
  intros Hall. simpl. rewrite (Hall r) by constructor.
  f_equal. apply IH. intros r' Hr'. apply Hall. by constructor.
Qed.

Lemma current_none existing df :
  (∀ r, r ∈ existing → survives df r = false) → current existing df = [].
Proof.
  rewrite current_filter. induction existing as [|r l IH]; [done|].
  intros Hall. simpl. rewrite (Hall r) by constructor.
  apply IH. intros r' Hr'. apply Hall. by constructor.
Qed.

Lemma survives_true df r :
  survives df r = true ↔
  ∀ k, PersonID r = Some k → (k ∉ delete_keys df) ∧ (k ∉ keys (updates df)).
Proof.
  pose proof (elem_of_current r [r] df) as H.
  rewrite current_filter in H. simpl in H.
  destruct (survives df r).
  - split; [intros _|done]. apply H. constructor.
  - split; [discriminate|]. intros Hk.
    assert (r ∈ []) as []%elem_of_nil. apply H. split; [constructor | done].
Qed.

Lemma key_eq_Some (o : option Z) k : DF.key_eq o (Some k) = true ↔ o = Some k.
Proof.
  destruct o as [x|]; simpl; [|done]. rewrite Z.eqb_eq. naive_solver.
Qed.

(** X4. A row of the prior Snapshot whose PersonID is null (the cast
    failed) is matched by no Delete and no Update: these rows are in every
    new Snapshot, all of them and in their order. *)
Theorem null_key_rows_survive prior df :
  List.filter (fun r => bool_decide (PersonID r = None)) (current prior df)
  = List.filter (fun r => bool_decide (PersonID r = None)) prior
  ∧ ∀ r, r ∈ prior → PersonID r = None → r ∈ cdc_merge prior df.
Proof.
  split.
  - rewrite current_filter, filter_twice. apply List.filter_ext. intros r.
    unfold survives. destruct (PersonID r) as [x|]; [|reflexivity].
    rewrite !(bool_decide_eq_false_2 (Some x = None)) by done.
    apply andb_false_r.
  - intros r Hr Hnull. rewrite cdc_merge_unfold, elem_of_app. left.
    apply elem_of_current. split; [done|]. intros k Hk. congruence.
Qed.

Lemma null_key_rows_survive_witness :
  mkRow None (Some "Nemo") (Some "Rome") ∈ cdc_merge Cases.prior_null batch_ex.
Proof.
  refine (proj2 (null_key_rows_survive Cases.prior_null batch_ex) _ _ _).
  - apply (bool_decide_unpack _). vm_compute. exact I.
  - reflexivity.
Defined.

(** X5. A PersonID that the batch deletes and neither inserts nor updates
    is the PersonID of no row of the new Snapshot, however many rows of
    the prior Snapshot had it. *)
Theorem deleted_key_is_gone prior df k :
  k ∈ delete_keys df →
  k ∉ keys (inserts df) →
  k ∉ keys (updates df) →
  k ∉ keys (cdc_merge prior df).
Proof.
  intros Hd Hi Hu. rewrite cdc_merge_unfold, !keys_app, !elem_of_app.
  intros [(_ & Hnd & _)%elem_of_keys_current|[?|?]]; done.
Qed.

Lemma deleted_key_is_gone_witness :
  2%Z ∉ keys (cdc_merge prior_ex batch_ex).
Proof.
  refine (deleted_key_is_gone prior_ex batch_ex 2%Z _ _ _).
  - apply (bool_decide_unpack _). vm_compute. exact I.
  - apply (bool_decide_unpack _). vm_compute. exact I.
  - apply (bool_decide_unpack _). vm_compute. exact I.
Defined.

(** X6. For a PersonID that the batch updates or deletes, the rows of the
    new Snapshot with that PersonID are the batch's own Insert and Update
    rows with it: every prior row with it has been superseded. *)
Theorem touched_key_rows_come_from_batch prior df k :
  k ∈ keys (updates df) ∨ k ∈ delete_keys df →
  with_key k (cdc_merge prior df) = with_key k (inserts df ++ updates df).
Proof.
  intros Hk. unfold with_key.
  rewrite cdc_merge_unfold, List.filter_app, current_filter, filter_twice.
  rewrite (List.filter_ext _ (fun _ => false)), filter_false; [done|].
  intros r. apply andb_false_iff.
  destruct (DF.key_eq (PersonID r) (Some k)) eqn:Hr; [left | by right].
  apply key_eq_Some in Hr. apply not_true_is_false.
  intros Hs. destruct (proj1 (survives_true df r) Hs k Hr). tauto.
Qed.

Lemma touched_key_rows_come_from_batch_witness :
  with_key 2%Z (cdc_merge prior_ex batch_delete_update)
  = [mkRow (Some 2%Z) (Some "Bob") (Some "SF")].
Proof.
  refine (touched_key_rows_come_from_batch prior_ex batch_delete_update 2%Z _).
  left. apply (bool_decide_unpack _). vm_compute. exact I.
Defined.

(** X7. A batch whose Delete and Update PersonIDs are not in the prior
    Snapshot leaves the prior Snapshot as it is, rows and order, and puts
    its Inserts and its Updates after it. *)
Theorem untouched_snapshot_is_kept prior df :
  (∀ k, k ∈ keys prior → (k ∉ delete_keys df) ∧ (k ∉ keys (updates df))) →
  cdc_merge prior df = prior ++ inserts df ++ updates df.
Proof.
  intros Hk. rewrite cdc_merge_unfold. f_equal. apply current_all.
  intros r Hr. apply survives_true. intros k Hrk. apply Hk.
  apply elem_of_keys. eauto.
Qed.

Lemma untouched_snapshot_is_kept_witness :
  cdc_merge prior_one batch_ex
  = prior_one ++ inserts batch_ex ++ updates batch_ex.
Proof.
  refine (untouched_snapshot_is_kept prior_one batch_ex _).
  intros k Hk%list_elem_of_In. vm_compute in Hk. destruct Hk as [<-|[]].
  split; apply (bool_decide_unpack _); vm_compute; exact I.
Defined.

(** X8. Applying a batch of Deletes and Updates (no Insert, no Update with
    a null PersonID) a second time, to the Snapshot it produced, changes
    nothing. *)
Theorem update_delete_batch_idempotent prior df :
  inserts df = [] →
  Forall (fun u => PersonID u ≠ None) (updates df) →
  cdc_merge (cdc_merge prior df) df = cdc_merge prior df.
Proof.
  intros Hins Hupd. rewrite !cdc_merge_unfold, Hins. cbn [app].
  rewrite current_app, current_current, (current_none (updates df));
    [by rewrite app_nil_r|].
  intros u Hu. apply not_true_is_false. intros Hs.
  rewrite Forall_forall in Hupd. pose proof (Hupd u Hu) as Hnn.
  destruct (PersonID u) as [k|] eqn:Hk; [|done].
  destruct (proj1 (survives_true df u) Hs k Hk) as [_ Hnu].
  apply Hnu, elem_of_keys. eauto.
Qed.

Lemma update_delete_batch_idempotent_witness :
  cdc_merge (cdc_merge prior_ex batch_delete_update) batch_delete_update
  = cdc_merge prior_ex batch_delete_update.
Proof.
  refine (update_delete_batch_idempotent prior_ex batch_delete_update _ _).
  - vm_compute. reflexivity.
  - apply (bool_decide_unpack _). vm_compute. exact I.
Defined.

(** X9. Applying a batch of Inserts only a second time, to the Snapshot it
    produced, adds every Insert row once more. *)
Theorem insert_batch_applied_twice prior df :
  updates df = [] →
  deletes df = [] →
  cdc_merge (cdc_merge prior df) df = cdc_merge prior df ++ inserts df
  ∧ length (cdc_merge (cdc_merge prior df) df)
    = length prior + 2 * length (inserts df).
Proof.
  intros Hu Hd.
  assert (∀ l, current l df = l) as Hcur.
  { intros l. apply current_all. intros r _. apply survives_true.
    intros k _. unfold delete_keys. rewrite Hd, Hu. split; apply not_elem_of_nil. }
  rewrite !cdc_merge_unfold, Hu, !Hcur, !app_nil_r. split; [done|].
  rewrite !length_app. lia.
Qed.

Lemma insert_batch_applied_twice_witness :
  length (cdc_merge (cdc_merge prior_one batch_reinsert) batch_reinsert) = 3.
Proof.
  refine (proj2 (insert_batch_applied_twice prior_one batch_reinsert _ _)).
  - vm_compute. reflexivity.
  - vm_compute. reflexivity.
Defined.

End merge_more.

(** ** Listing, promotion and cleanup *)

Section store_more.
Implicit Types (s : store) (k key dir prefix : string) (ks objs : list string).

Lemma List_filter_sublist {A : Type} (f : A -> bool) (l : list A) :
  List.filter f l `sublist_of` l.
Proof.
  induction l as [|x l IH]; simpl; [constructor|].
  destruct (f x); by constructor.
Qed.

Lemma list_keys_NoDup s prefix : NoDup (S3.list_keys s prefix).
Proof.
  unfold S3.list_keys. rewrite merge_sort_Permutation.
  eapply sublist_NoDup; [|apply List_filter_sublist].
  change (map fst (map_to_list s)) with ((map_to_list s).*1).
  apply NoDup_fst_map_to_list.
Qed.

Lemma list_keys_sorted s prefix : StronglySorted String.le (S3.list_keys s prefix).
Proof. apply (StronglySorted_merge_sort _). Qed.

Lemma delete_objects_lookup_in s ks k :
  k ∈ ks → S3.delete_objects s ks !! k = None.
Proof.
  unfold S3.delete_objects. induction ks as [|k' ks IH]; [by intros ?%elem_of_nil|].
  cbn [foldr]. destruct (decide (k' = k)) as [->|Hne].
  - intros _. apply lookup_delete_eq.
  - intros [?|Hin]%elem_of_cons; [congruence|].
    rewrite lookup_delete_ne by done. auto.
Qed.

Lemma copy_lookup_ne s src dst k : k ≠ dst → S3.copy s src dst !! k = s !! k.
Proof.
  intros Hk. unfold S3.copy. destruct (s !! src); [|done].
  by apply lookup_insert_ne.
Qed.

(** The loop stops at the first listed key that matches. *)
Lemma scan_parts_first s final_key objs :
  (∃ k, k ∈ objs ∧ Re.matches Re.part_pattern k = true) →
  ∃ before key after,
    objs = before ++ key :: after
    ∧ Forall (fun k => Re.matches Re.part_pattern k = false) before
    ∧ Re.matches Re.part_pattern key = true
    ∧ scan_parts s final_key objs
      = (S3.copy s key final_key,
         [Info_found_part key; Store_copy key final_key; Info_copied final_key]).
Proof.
  induction objs as [|k0 objs IH]; intros (k & Hin & Hk).
  - by apply elem_of_nil in Hin.
  - cbn [scan_parts]. destruct (Re.matches Re.part_pattern k0) eqn:H0.
    + exists [], k0, objs. by repeat split.
    + destruct IH as (before & key & after & -> & Hb & Hkey & Hscan).
      { apply elem_of_cons in Hin as [->|Hin]; [congruence | eauto]. }
      exists (k0 :: before), key, after. repeat split; [by constructor|done..].
Qed.

Lemma match_or_none objs :
  Forall (fun k => Re.matches Re.part_pattern k = false) objs
  ∨ ∃ k, k ∈ objs ∧ Re.matches Re.part_pattern k = true.
Proof.
  induction objs as [|k objs [IH|(k' & Hin & Hk')]].
  - left. constructor.
  - destruct (Re.matches Re.part_pattern k) eqn:Hk.
    + right. exists k. split; [by left | done].
    + left. by constructor.
  - right. exists k'. split; [by right | done].
Qed.

(** What [move_part_to_final] does to a key other than the final key:
    nothing. *)
Lemma move_part_lookup_ne s temp_path final_key k :
  k ≠ final_key →
  (move_part_to_final s temp_path final_key).1 !! k = s !! k.
Proof.
  intros Hk. unfold move_part_to_final.
  destruct (match_or_none (S3.list_keys s (temp_prefix temp_path)))
    as [Hnone|Hsome].
  - by rewrite scan_parts_none.
  - destruct (scan_parts_first s final_key _ Hsome)
      as (? & key & ? & _ & _ & _ & ->).
    cbn [fst]. by apply copy_lookup_ne.
Qed.

(** The copy of [move_part_to_final], when some listed key matches. *)
Lemma move_part_copies_first s temp_path final_key :
  (∃ k, k ∈ S3.list_keys s (temp_prefix temp_path)
        ∧ Re.matches Re.part_pattern k = true) →
  ∃ key c,
    s !! key = Some c
    ∧ String.prefix (temp_prefix temp_path) key = true
    ∧ Re.matches Re.part_pattern key = true
    ∧ move_part_to_final s temp_path final_key
      = (<[final_key := c]> s,
         [Info_found_part key; Store_copy key final_key; Info_copied final_key]).
Proof.
  intros Hsome. unfold move_part_to_final.
  destruct (scan_parts_first s final_key _ Hsome)
    as (before & key & after & Hl & Hb & Hkey & ->).
  assert (key ∈ S3.list_keys s (temp_prefix temp_path)) as Hin.
  { rewrite Hl, elem_of_app, elem_of_cons. auto. }
  apply elem_of_list_keys in Hin as [[c Hc] Hp].
  exists key, c. repeat split; try done.
  unfold S3.copy. by rewrite Hc.
Qed.

(** X10. When some object under the prefix matches the part-file pattern,
    [move_part_to_final] copies one object, the matching key that comes
    first by the bytes of the key, to the final key, and leaves every other
    key of the bucket as it was. *)
Theorem move_part_copies_least_match s temp_path final_key :
  (∃ k, k ∈ S3.list_keys s (temp_prefix temp_path)
        ∧ Re.matches Re.part_pattern k = true) →
  ∃ key c,
    s !! key = Some c
    ∧ String.prefix (temp_prefix temp_path) key = true
    ∧ Re.matches Re.part_pattern key = true
    ∧ (∀ k, k ∈ S3.list_keys s (temp_prefix temp_path) →
            Re.matches Re.part_pattern k = true → String.le key k)
    ∧ move_part_to_final s temp_path final_key
      = (<[final_key := c]> s,
         [Info_found_part key; Store_copy key final_key; Info_copied final_key]).
Proof.
  intros Hsome. unfold move_part_to_final.
  destruct (scan_parts_first s final_key _ Hsome)
    as (before & key & after & Hl & Hb & Hkey & ->).
  assert (key ∈ S3.list_keys s (temp_prefix temp_path)) as Hin.
  { rewrite Hl, elem_of_app, elem_of_cons. auto. }
  apply elem_of_list_keys in Hin as [[c Hc] Hp].
  exists key, c. repeat split; try done.
  - intros k Hk Hm. pose proof (list_keys_sorted s (temp_prefix temp_path)) as Hs.
    rewrite Hl in Hs, Hk.
    apply elem_of_app in Hk as [Hk|Hk].
    + rewrite Forall_forall in Hb. rewrite (Hb k Hk) in Hm. discriminate.
    + apply StronglySorted_app_1_r in Hs.
      apply elem_of_cons in Hk as [->|Hk]; [reflexivity|].
      apply StronglySorted_inv in Hs as [_ Hall].
      rewrite Forall_forall in Hall. by apply Hall.
  - unfold S3.copy. by rewrite Hc.
Qed.

Lemma move_part_copies_least_match_witness :
  ∃ key c,
    Cases.bucket_temp !! key = Some c
    ∧ String.prefix (temp_prefix Cases.path) key = true
    ∧ Re.matches Re.part_pattern key = true
    ∧ (∀ k, k ∈ S3.list_keys Cases.bucket_temp (temp_prefix Cases.path) →
            Re.matches Re.part_pattern k = true → String.le key k)
    ∧ move_part_to_final Cases.bucket_temp Cases.path final_output_key
      = (<[final_output_key := c]> Cases.bucket_temp,
         [Info_found_part key; Store_copy key final_output_key;
          Info_copied final_output_key]).
Proof.
  refine (move_part_copies_least_match Cases.bucket_temp Cases.path
            final_output_key _).
  exists (Cases.dir +:+ "part-00001.csv"). split.
  - apply (bool_decide_unpack _). vm_compute. exact I.
  - vm_compute. reflexivity.
Defined.

(** X11. [cleanup_temp_folder], when the prefix holds at most 1000
    objects, removes every object under the prefix and no other: a bucket
    with nothing under the prefix is left as it was. *)
Theorem cleanup_removes_prefix s temp_path :
  (length (S3.list_keys s (temp_prefix temp_path)) ≤ 1000)%nat →
  (∀ k, (cleanup_temp_folder s temp_path).1 !! k
        = if String.prefix (temp_prefix temp_path) k then None else s !! k)
  ∧ (S3.list_keys s (temp_prefix temp_path) = [] →
     cleanup_temp_folder s temp_path = (s, [Info_no_temp])).
Proof.
  intros Hlen. split.
  - intros k. destruct (String.prefix (temp_prefix temp_path) k) eqn:Hp.
    2: { by apply cleanup_lookup_outside. }
    unfold cleanup_temp_folder, S3.list_objects_v2. rewrite take_ge by done.
    destruct (s !! k) as [c|] eqn:Hk.
    + assert (k ∈ S3.list_keys s (temp_prefix temp_path)) as Hin
        by (apply elem_of_list_keys; eauto).
      destruct (S3.list_keys s (temp_prefix temp_path)) as [|k0 ks] eqn:E.
      { by apply elem_of_nil in Hin. }
      cbn [fst]. by apply delete_objects_lookup_in.
    + destruct (S3.list_keys s (temp_prefix temp_path)) as [|k0 ks] eqn:E;
        cbn [fst]; [done|].
      destruct (decide (k ∈ k0 :: ks)) as [Hin|Hnin].
      * by apply delete_objects_lookup_in.
      * by rewrite delete_objects_lookup.
  - intros Hnil. unfold cleanup_temp_folder, S3.list_objects_v2.
    by rewrite Hnil.
Qed.

Lemma cleanup_removes_prefix_witness :
  (cleanup_temp_folder Cases.bucket_temp Cases.path).1
    !! (Cases.dir +:+ "part-00000.csv") = None.
Proof.
  refine (proj1 (cleanup_removes_prefix Cases.bucket_temp Cases.path _)
            (Cases.dir +:+ "part-00000.csv")).
  vm_compute. lia.
Defined.

(** X12. [cleanup_temp_folder] lists one page: an object under the prefix
    that comes after the first 1000 in the listing is still in the bucket
    after the cleanup. *)
Theorem cleanup_first_page_only s temp_path i k :
  S3.list_keys s (temp_prefix temp_path) !! i = Some k →
  (1000 ≤ i)%nat →
  is_Some (s !! k)
  ∧ (cleanup_temp_folder s temp_path).1 !! k = s !! k.
Proof.
  intros Hi Hge.
  assert (k ∈ S3.list_keys s (temp_prefix temp_path)) as Hin
    by (apply list_elem_of_lookup; eauto).
  apply elem_of_list_keys in Hin as [Hsome _]. split; [done|].
  unfold cleanup_temp_folder, S3.list_objects_v2.
  destruct (take 1000 (S3.list_keys s (temp_prefix temp_path))) as [|k0 ks] eqn:E;
    [done|].
  cbn [fst]. apply delete_objects_lookup. rewrite <- E.
  intros (j & Hj & Hlt)%elem_of_take.
  pose proof (NoDup_lookup _ _ _ _ (list_keys_NoDup s (temp_prefix temp_path)) Hi Hj).
  lia.
Qed.

Lemma cleanup_first_page_only_witness :
  (cleanup_temp_folder Cases.bucket_crowded Cases.path).1
    !! (Cases.dir +:+ "obj-" +:+ pad4 1000)
  = Cases.bucket_crowded !! (Cases.dir +:+ "obj-" +:+ pad4 1000).
Proof.
  refine (proj2 (cleanup_first_page_only Cases.bucket_crowded Cases.path 1000
                   (Cases.dir +:+ "obj-" +:+ pad4 1000) _ _)).
  - vm_compute. reflexivity.
  - reflexivity.
Defined.

End store_more.

(** ** The write of Step 4 and whole runs *)

Section run_more.
Context `{SparkEngine}.
Implicit Types (args : JobArgs) (now : datetime) (s m : store) (raw : string).
Implicit Types (ft : file_type) (k dir name : string).
Implicit Types (files : list (string * string)).

Lemma write_fold_lookup_other dir files m k :
  (∀ name, name ∈ files.*1 → k ≠ dir +:+ name) →
  foldl (fun m f => <[dir +:+ f.1 := f.2]> m) m files !! k = m !! k.
Proof.
  revert m. induction files as [|[n c] files IH]; intros m Hk; [done|].
  cbn [foldl fst snd]. rewrite IH.
  - apply lookup_insert_ne. intros Heq. eapply Hk; [|by symmetry]. by left.
  - intros name Hin. apply Hk. by right.
Qed.

Lemma write_fold_lookup_written dir files m name c :
  NoDup files.*1 → (name, c) ∈ files →
  foldl (fun m f => <[dir +:+ f.1 := f.2]> m) m files !! (dir +:+ name) = Some c.
Proof.
  revert m. induction files as [|[n c'] files IH]; intros m Hnd Hin.
  - by apply elem_of_nil in Hin.
  - cbn [fmap list_fmap fst] in Hnd. apply NoDup_cons in Hnd as [Hn Hnd].
    cbn [foldl fst snd]. apply elem_of_cons in Hin as [[= <- <-]|Hin].
    + rewrite write_fold_lookup_other; [apply lookup_insert_eq|].
      intros name' Hin' Heq. apply (inj (String.app dir)) in Heq. congruence.
    + by apply IH.
Qed.

(** After the overwrite the directory holds the written files, and only
    them. *)
Lemma overwrite_lookup_under s dir files k :
  String.prefix dir k = true →
  is_Some (S3.overwrite s dir files !! k) →
  ∃ name, name ∈ files.*1 ∧ k = dir +:+ name.
Proof.
  intros Hp Hsome. unfold S3.overwrite in Hsome.
  destruct (decide (k ∈ String.app dir <$> files.*1)) as [Hin|Hno].
  { apply list_elem_of_fmap in Hin as (name & -> & Hin). eauto. }
  rewrite write_fold_lookup_other in Hsome.
  2: { intros name Hin ->. apply Hno, list_elem_of_fmap. eauto. }
  destruct Hsome as [c Hc]. apply map_lookup_filter_Some in Hc as [_ Hc].
  simpl in Hc. congruence.
Qed.

Lemma overwrite_lookup_written s dir files name c :
  NoDup files.*1 → (name, c) ∈ files →
  S3.overwrite s dir files !! (dir +:+ name) = Some c.
Proof. intros. unfold S3.overwrite. by apply write_fold_lookup_written. Qed.

Lemma input_not_final f : input_key f ≠ final_output_key.
Proof. intros Heq. apply (f_equal (String.get 0)) in Heq. discriminate Heq. Qed.

Lemma input_not_under_temp ts f :
  String.prefix (temp_output_key ts) (input_key f) = false.
Proof. reflexivity. Qed.

(** X13. A run changes the bucket only under its temporary directory and
    at the canonical key: every other object, the input file included, is
    after the run what it was before (for a bucket name without slash and
    colon). *)
Theorem run_touches_nothing_else args now s :
  plain_name (dst_bucket_name args) = true →
  (∀ k, k ≠ final_output_key →
        String.prefix (temp_output_key (strftime now)) k = false →
        (run_job args now s).1.2 !! k = s !! k)
  ∧ (run_job args now s).1.2 !! input_key (file_name args)
    = s !! input_key (file_name args).
Proof.
  intros Hname.
  assert (∀ k, k ≠ final_output_key →
            String.prefix (temp_output_key (strftime now)) k = false →
            (run_job args now s).1.2 !! k = s !! k) as Hall.
  { intros k Hfinal Hk.
    destruct (s !! input_key (file_name args)) as [raw|] eqn:Hraw.
    2: { unfold run_job. by rewrite Hraw. }
    destruct (classify (num_cols (read_csv raw))) as [err|ft] eqn:Hft.
    { unfold run_job. by rewrite Hraw, Hft. }
    rewrite (run_job_steps args now s raw ft Hraw Hft). cbv zeta. cbn [fst snd].
    rewrite cleanup_lookup_outside by (by rewrite temp_prefix_key).
    rewrite move_part_lookup_ne by done.
    by apply overwrite_lookup_outside. }
  split; [exact Hall|].
  apply Hall; [apply input_not_final | apply input_not_under_temp].
Qed.

(** X14. When the writer leaves files of distinct names, one of which,
    and no other, matches the part-file pattern, the run commits and the
    canonical key holds the content of that file (for a bucket name
    without slash and colon). *)
Theorem run_publishes_part_file args now s raw ft name c :
  plain_name (dst_bucket_name args) = true →
  s !! input_key (file_name args) = Some raw →
  classify (num_cols (read_csv raw)) = inr ft →
  let dir := temp_output_key (strftime now) in
  let files := write_csv (step3 ft s (read_csv raw)).1 in
  NoDup files.*1 →
  (name, c) ∈ files →
  Re.matches Re.part_pattern (dir +:+ name) = true →
  (∀ n, n ∈ files.*1 → Re.matches Re.part_pattern (dir +:+ n) = true → n = name) →
  (run_job args now s).1.1 = Committed
  ∧ (run_job args now s).1.2 !! final_output_key = Some c
  ∧ Store_copy (dir +:+ name) final_output_key ∈ (run_job args now s).2.
Proof.
  intros Hname Hraw Hft dir files Hnd Hin Hmatch Huniq.
  rewrite (run_job_steps args now s raw ft Hraw Hft). cbv zeta. cbn [fst snd].
  set (path := temp_output_path (dst_bucket_name args) (strftime now)).
  set (s4 := store_at_promotion now s ft (read_csv raw)).
  assert (temp_prefix path = dir) as Hprefix by (by apply temp_prefix_key).
  assert (s4 !! (dir +:+ name) = Some c) as Hwritten
    by (by apply overwrite_lookup_written).
  destruct (move_part_copies_first s4 path final_output_key)
    as (key & c' & Hkey & Hp & Hm & Hmove).
  { exists (dir +:+ name). split; [|done]. apply elem_of_list_keys.
    rewrite Hprefix. split; [eauto | apply prefix_append]. }
  rewrite Hprefix in Hp.
  destruct (overwrite_lookup_under s dir files key Hp) as (n & Hn & ->); [eauto|].
  assert (n = name) as -> by (by apply Huniq).
  assert (c' = c) as -> by congruence.
  rewrite Hmove. cbn [fst snd]. split; [done|]. split.
  - rewrite cleanup_lookup_outside by apply final_not_under_prefix.
    apply lookup_insert_eq.
  - rewrite !elem_of_app, !elem_of_cons. right. right. right. left. auto.
Qed.

(** X15. After a committed run whose writer left at most 1000 files, no
    object is left under the run's temporary directory (for a bucket name
    without slash and colon). *)
Theorem run_leaves_no_temp_object args now s raw ft :
  plain_name (dst_bucket_name args) = true →
  s !! input_key (file_name args) = Some raw →
  classify (num_cols (read_csv raw)) = inr ft →
  (length (write_csv (step3 ft s (read_csv raw)).1) ≤ 1000)%nat →
  ∀ k, String.prefix (temp_output_key (strftime now)) k = true →
       (run_job args now s).1.2 !! k = None.
Proof.
  intros Hname Hraw Hft Hlen k Hk.
  rewrite (run_job_steps args now s raw ft Hraw Hft). cbv zeta. cbn [fst snd].
  set (path := temp_output_path (dst_bucket_name args) (strftime now)).
  set (s4 := store_at_promotion now s ft (read_csv raw)).
  set (s5 := (move_part_to_final s4 path final_output_key).1).
  set (dir := temp_output_key (strftime now)) in *.
  set (files := write_csv (step3 ft s (read_csv raw)).1) in *.
  assert (temp_prefix path = dir) as Hprefix by (by apply temp_prefix_key).
  assert (∀ k', String.prefix dir k' = true → s5 !! k' = s4 !! k') as Hs5.
  { intros k' Hk'. unfold s5. apply move_part_lookup_ne. intros ->.
    pose proof (final_not_under_temp (strftime now)). unfold dir in Hk'.
    congruence. }
  assert (length (S3.list_keys s5 (temp_prefix path)) ≤ 1000)%nat as Hfew.
  { etransitivity; [|exact Hlen].
    transitivity (length (String.app dir <$> files.*1));
      [|by rewrite !length_fmap].
    apply submseteq_length, NoDup_submseteq; [apply list_keys_NoDup|].
    intros x [Hsome Hp]%elem_of_list_keys. rewrite Hprefix in Hp.
    rewrite (Hs5 x Hp) in Hsome.
    destruct (overwrite_lookup_under s dir files x Hp Hsome) as (n & Hn & ->).
    apply list_elem_of_fmap. eauto. }
  destruct (cleanup_removes_prefix s5 path Hfew) as [Hclean _].
  rewrite Hclean, Hprefix, Hk. reflexivity.
Qed.

(** X22. A CDC run whose canonical file can be read hands to the writer
    the merge of that file's rows, PersonID cast to integer, with the
    batch, logs the three partition counts and does not warn of a missing
    canonical file. *)
Theorem cdc_run_merges_canonical args now s raw content rows :
  s !! input_key (file_name args) = Some raw →
  num_cols (read_csv raw) = 4 →
  s !! final_output_key = Some content →
  read_csv_header content = Some rows →
  let existing := map (fun r => mkRow (cast_int r.1.1) r.1.2 r.2) rows in
  let df := map to_cdc (csv_rows (read_csv raw)) in
  (run_job args now s).1.1 = Committed
  ∧ written (run_job args now s).2 = [cdc_merge existing df]
  ∧ Info_counts (length (inserts df)) (length (updates df))
                (length (deletes df)) ∈ (run_job args now s).2
  ∧ Warn_no_existing ∉ (run_job args now s).2.
Proof.
  intros Hraw Hn Hfinal Hread existing df.
  assert (load_existing s = (existing, [])) as Hload.
  { unfold load_existing, read_existing. by rewrite Hfinal, Hread. }
  destruct (run_job_cdc args now s raw Hraw Hn) as [Hc Hw].
  rewrite Hload in Hw. split; [exact Hc|]. split; [exact Hw|].
  rewrite (run_job_steps args now s raw cdc Hraw (classify_cdc _ Hn)).
  cbv zeta. cbn [fst snd step3]. rewrite Hload. cbn [fst snd app].
  fold df. split.
  - right. left.
  - rewrite !elem_of_cons, !elem_of_app, !elem_of_cons, !elem_of_nil.
    intros [?|[?|[?|[?|[?|[Hm|[Hcl|[?|[]]]]]]]]]; try discriminate.
    + unfold move_part_to_final in Hm.
      destruct (match_or_none (S3.list_keys
                  (store_at_promotion now s cdc (read_csv raw))
                  (temp_prefix (temp_output_path (dst_bucket_name args)
                                                 (strftime now)))))
        as [Hnone|Hsome].
      * rewrite scan_parts_none in Hm by done.
        apply list_elem_of_singleton in Hm. discriminate.
      * destruct (scan_parts_first (store_at_promotion now s cdc (read_csv raw))
                    final_output_key _ Hsome) as (? & ? & ? & _ & _ & _ & Hscan).
        rewrite Hscan in Hm. cbn [snd] in Hm.
        rewrite !elem_of_cons, elem_of_nil in Hm.
        destruct Hm as [?|[?|[?|[]]]]; discriminate.
    + apply cleanup_log in Hcl as [?|[[? ?]|[? ?]]]; discriminate.
Qed.

End run_more.

Lemma run_touches_nothing_else_witness :
  (@run_job (Sample.engine true) Sample.args Sample.now Sample.bucket_ex).1.2
    !! input_key "batch.csv"
  = Sample.bucket_ex !! input_key "batch.csv".
Proof.
  refine (proj2 (@run_touches_nothing_else (Sample.engine true) Sample.args
                   Sample.now Sample.bucket_ex _)).
  reflexivity.
Defined.

Lemma run_publishes_part_file_witness :
  (@run_job (Sample.engine true) Sample.args Sample.now Sample.bucket_ex).1.2
    !! final_output_key
  = Some ("PersonID,FullName,City" +:+ Sample.nl +:+ "1,Alice,NYC" +:+ Sample.nl
          +:+ "3,Carl,SF" +:+ Sample.nl).
Proof.
  refine (proj1 (proj2 (@run_publishes_part_file (Sample.engine true)
            Sample.args Sample.now Sample.bucket_ex Sample.raw_ex cdc
            "part-00000-7f3a-c000.csv" _ _ _ _ _ _ _ _))).
  - reflexivity.
  - vm_compute. reflexivity.
  - vm_compute. reflexivity.
  - apply (bool_decide_unpack _). vm_compute. exact I.
  - apply (bool_decide_unpack _). vm_compute. exact I.
  - vm_compute. reflexivity.
  - intros n Hn%list_elem_of_In Hm. vm_compute in Hn.
    destruct Hn as [<-|[<-|[]]]; [|reflexivity].
    vm_compute in Hm. discriminate Hm.
Defined.

Lemma run_leaves_no_temp_object_witness :
  (@run_job (Sample.engine true) Sample.args Sample.now Sample.bucket_ex).1.2
    !! (Cases.dir +:+ "_SUCCESS") = None.
Proof.
  refine (@run_leaves_no_temp_object (Sample.engine true) Sample.args Sample.now
            Sample.bucket_ex Sample.raw_ex cdc _ _ _ _
            (Cases.dir +:+ "_SUCCESS") _).
  - reflexivity.
  - vm_compute. reflexivity.
  - vm_compute. reflexivity.
  - vm_compute. lia.
  - vm_compute. reflexivity.
Defined.

Lemma cdc_run_merges_canonical_witness :
  written (@run_job (Sample.engine true) Sample.args Sample.now
             Sample.bucket_ex).2
  = [[ mkRow (Some 1%Z) (Some "Alice") (Some "NYC");
       mkRow (Some 3%Z) (Some "Carl") (Some "SF") ]].
Proof.
  refine (proj1 (proj2 (@cdc_run_merges_canonical (Sample.engine true)
            Sample.args Sample.now Sample.bucket_ex Sample.raw_ex
            ("PersonID,FullName,City" +:+ Sample.nl +:+ "1,Alice,NYC"
             +:+ Sample.nl +:+ "2,Bob,LA" +:+ Sample.nl)
            [ (Some "1", Some "Alice", Some "NYC");
              (Some "2", Some "Bob", Some "LA") ] _ _ _ _))).
  - vm_compute. reflexivity.
  - vm_compute. reflexivity.
  - vm_compute. reflexivity.
  - vm_compute. reflexivity.
Defined.


(** ** Timestamps and temporary directories *)

Section timestamp_facts.
Implicit Types (n m : nat) (a b : datetime) (s t : string).

Lemma digit_inj n m : digit n = digit m → n mod 10 = m mod 10.
Proof.
  unfold digit. intros Heq. apply (f_equal nat_of_ascii) in Heq.
  pose proof (Nat.mod_upper_bound n 10 ltac:(lia)).
  pose proof (Nat.mod_upper_bound m 10 ltac:(lia)).
  rewrite !nat_ascii_embedding in Heq by lia. lia.
Qed.

Lemma string_cons_inj (c d : ascii) s t :
  String c s = String d t → c = d ∧ s = t.
Proof. by intros [= -> ->]. Qed.

Lemma pad2_append_inj n m s t :
  n < 100 → m < 100 → pad2 n +:+ s = pad2 m +:+ t → n = m ∧ s = t.
Proof.
  intros Hn Hm. unfold pad2. rewrite !append_cons.
  intros [H1%digit_inj [H2%digit_inj Hst]%string_cons_inj]%string_cons_inj.
  split; [|exact Hst].
  pose proof (Nat.div_mod_eq n 10). pose proof (Nat.div_mod_eq m 10).
  pose proof (Nat.mod_small (n / 10) 10 ltac:(apply Nat.Div0.div_lt_upper_bound; lia)).
  pose proof (Nat.mod_small (m / 10) 10 ltac:(apply Nat.Div0.div_lt_upper_bound; lia)).
  lia.
Qed.

Lemma pad4_append_inj n m s t :
  n < 100 * 100 → m < 100 * 100 → pad4 n +:+ s = pad4 m +:+ t → n = m ∧ s = t.
Proof.
  intros Hn Hm. unfold pad4, pad2. rewrite !append_cons.
  intros [H1%digit_inj [H2%digit_inj [H3%digit_inj [H4%digit_inj Hst]
    %string_cons_inj]%string_cons_inj]%string_cons_inj]%string_cons_inj.
  split; [|exact Hst].
  assert (∀ x, x < 100 * 100 →
            x = 1000 * ((x / 1000) mod 10) + 100 * ((x / 100) mod 10)
                + 10 * ((x / 10) mod 10) + x mod 10) as Hdec.
  { intros x Hx.
    pose proof (Nat.div_mod_eq x 10). pose proof (Nat.div_mod_eq (x / 10) 10).
    pose proof (Nat.div_mod_eq (x / 10 / 10) 10).
    rewrite !Nat.Div0.div_div in *. change (10 * 10) with 100 in *.
    change (100 * 10) with 1000 in *.
    pose proof (Nat.mod_small (x / 1000) 10
                  ltac:(apply Nat.Div0.div_lt_upper_bound; lia)).
    lia. }
  rewrite (Hdec n Hn), (Hdec m Hm). lia.
Qed.

Lemma strftime_inj a b :
  in_range a = true → in_range b = true → strftime a = strftime b → a = b.
Proof.
  unfold in_range. rewrite !andb_true_iff, !Nat.ltb_lt.
  intros (((((?&?)&?)&?)&?)&?) (((((?&?)&?)&?)&?)&?).
  unfold strftime. rewrite <- (append_empty_r (pad2 (second a))).
  rewrite <- (append_empty_r (pad2 (second b))).
  intros [Hy Heq]%pad4_append_inj; [|done..].
  apply pad2_append_inj in Heq as [Hmo Heq]; [|done..].
  apply pad2_append_inj in Heq as [Hd Heq]; [|done..].
  apply (inj (String.app "_")) in Heq.
  apply pad2_append_inj in Heq as [Hh Heq]; [|done..].
  apply pad2_append_inj in Heq as [Hmi Heq]; [|done..].
  apply pad2_append_inj in Heq as [Hs _]; [|done..].
  destruct a, b. simpl in *. congruence.
Qed.

Lemma prefix_same_length s t :
  String.prefix s t = true → String.length s = String.length t → s = t.
Proof.
  revert t. induction s as [|c s IH]; intros [|d t]; try done.
  simpl. destruct (ascii_dec c d) as [->|]; [|done].
  intros Hp [= Hl]. f_equal. by apply IH.
Qed.

Lemma append_cancel_r s t u : s +:+ u = t +:+ u → s = t.
Proof.
  revert t. induction s as [|c s IH]; intros [|d t] Heq; [done| | |].
  - apply (f_equal String.length) in Heq.
    rewrite !length_append in Heq. simpl in Heq. lia.
  - apply (f_equal String.length) in Heq.
    rewrite !length_append in Heq. simpl in Heq. lia.
  - rewrite !append_cons in Heq. injection Heq as -> Heq. f_equal. by apply IH.
Qed.

(** X16. Two runs started at different seconds have different timestamps,
    and the temporary directory of neither is under that of the other: the
    promotion and the cleanup of a run, which go by prefix, see no file of
    the other run. *)
Theorem temp_directories_apart a b :
  in_range a = true → in_range b = true → a ≠ b →
  strftime a ≠ strftime b
  ∧ String.prefix (temp_output_key (strftime a)) (temp_output_key (strftime b))
    = false.
Proof.
  intros Ha Hb Hne.
  assert (strftime a ≠ strftime b) as Hts
    by (intros Heq; by apply Hne, strftime_inj).
  split; [exact Hts|]. apply not_true_is_false. intros Hp.
  apply prefix_same_length in Hp.
  - unfold temp_output_key in Hp. apply (inj (String.app _)) in Hp.
    apply (inj (String.app _)) in Hp. by apply append_cancel_r in Hp.
  - unfold temp_output_key. by rewrite !length_append, !strftime_length.
Qed.

Lemma temp_directories_apart_witness :
  String.prefix (temp_output_key (strftime Sample.now))
                (temp_output_key (strftime Cases.later)) = false.
Proof.
  refine (proj2 (temp_directories_apart Sample.now Cases.later _ _ _)).
  - reflexivity.
  - reflexivity.
  - discriminate.
Defined.

End timestamp_facts.

(** ** The trigger adapter on well-formed notifications *)

Section trigger_more.
Context `{TriggerEnv}.
Implicit Types (v event bucket_name : pyval) (w : world) (key : string).

(** The handler on a notification that has both fields. *)
Lemma lambda_handler_fields event w bucket_name v :
  event_bucket_name event = Some bucket_name →
  event_object_key event = Some v →
  lambda_handler event w =
  match v with
  | PStr key =>
      let req := request_for bucket_name (unquote_plus key) in
      let file := Py.last_part (Py.split "/" (unquote_plus key)) in
      let w1 := mkWorld (started w ++ [req]) (stdout w) in
      match start_job_run req with
      | inl e => (inl e, w1)
      | inr response =>
          match getitem response (Key "JobRunId") with
          | inl e => (inl e, w1)
          | inr id =>
              (inr (acknowledgment bucket_name file id),
               mkWorld (started w ++ [req])
                       (stdout w ++ [acknowledgment bucket_name file id]))
          end
      end
  | _ => (inl AttributeError, w)
  end.
Proof.
  intros Hb Hk.
  pose proof (getpath_fields event "bucket" "name" w) as Hpb.
  pose proof (getpath_fields event "object" "key" w) as Hpk.
  unfold event_bucket_name in Hb. unfold event_object_key in Hk.
  rewrite Hb in Hpb. rewrite Hk in Hpk.
  unfold lambda_handler.
  unfold mbind at 1. unfold handler_bind at 1. rewrite Hpb.
  unfold mbind at 1. unfold handler_bind at 1. rewrite Hpk.
  destruct v; try reflexivity.
  unfold mbind, handler_bind, call_unquote_plus, call_start_job_run, mret,
    handler_ret, pure, print, request_for. cbn [started stdout].
  destruct (start_job_run _) as [e|response]; [reflexivity|].
  destruct (getitem response (Key "JobRunId")); reflexivity.
Qed.

(** The handler on a notification that lacks one of the two fields. *)
Lemma missing_field_raises event w :
  event_bucket_name event = None ∨ event_object_key event = None →
  ∃ e, lambda_handler event w = (inl e, w).
Proof.
  intros Hmiss.
  pose proof (getpath_fields event "bucket" "name" w) as Hpb.
  pose proof (getpath_fields event "object" "key" w) as Hpk.
  fold (event_bucket_name event) in Hpb. fold (event_object_key event) in Hpk.
  unfold lambda_handler. unfold mbind at 1. unfold handler_bind at 1.
  destruct (event_bucket_name event) as [bucket_name|].
  2: { destruct Hpb as (e & -> & _). eauto. }
  rewrite Hpb. unfold mbind at 1. unfold handler_bind at 1.
  destruct (event_object_key event) as [v|].
  { by destruct Hmiss. }
  destruct Hpk as (e & -> & _). eauto.
Qed.

(** X17. For every notification that has a bucket name and a string object
    key, the handler makes one job-start call, after those made before:
    job consolidate-employee-data-lewis, with the bucket name and, as file
    name, the last segment of the decoded key; this whatever the service
    answers. *)
Theorem well_formed_event_dispatches_once event w bucket_name key :
  event_bucket_name event = Some bucket_name →
  event_object_key event = Some (PStr key) →
  started (lambda_handler event w).2
  = started w
    ++ [mkRequest "consolidate-employee-data-lewis"
          [ ("--dst_bucket_name", bucket_name);
            ("--file_name",
             PStr (Py.last_part (Py.split "/" (unquote_plus key)))) ]].
Proof.
  intros Hb Hk. rewrite (lambda_handler_fields _ _ _ _ Hb Hk). cbv zeta.
  destruct (start_job_run _) as [e|response]; [reflexivity|].
  destruct (getitem response (Key "JobRunId")); reflexivity.
Qed.

(** X18. When the service answers the call with an object that has a
    JobRunId, the handler returns status code 200 with a body made of the
    message, the bucket name, the file name and that identifier, and has
    printed this very value, once. *)
Theorem answered_call_is_acknowledged event w bucket_name key response id :
  event_bucket_name event = Some bucket_name →
  event_object_key event = Some (PStr key) →
  start_job_run (request_for bucket_name (unquote_plus key)) = inr response →
  getitem response (Key "JobRunId") = inr id →
  let file := Py.last_part (Py.split "/" (unquote_plus key)) in
  let ack :=
    PDict [ ("statusCode", PInt 200);
            ("body", PStr (json_dumps (PDict
               [ ("message", PStr "Glue job triggered successfully");
                 ("bucket", bucket_name);
                 ("file", PStr file);
                 ("jobRunId", id) ]))) ] in
  (lambda_handler event w).1 = inr ack
  ∧ stdout (lambda_handler event w).2 = stdout w ++ [ack].
Proof.
  intros Hb Hk Hrun Hid. rewrite (lambda_handler_fields _ _ _ _ Hb Hk).
  cbv zeta. rewrite Hrun, Hid. split; reflexivity.
Qed.

(** X19. When the service raises, or answers without a JobRunId, the
    handler raises that exception (KeyError for the missing identifier)
    after the call has been made, and prints nothing. *)
Theorem failed_call_raises_after_dispatch event w bucket_name key :
  event_bucket_name event = Some bucket_name →
  event_object_key event = Some (PStr key) →
  let req := request_for bucket_name (unquote_plus key) in
  (∀ e, start_job_run req = inl e →
        lambda_handler event w
        = (inl e, mkWorld (started w ++ [req]) (stdout w)))
  ∧ (∀ response e, start_job_run req = inr response →
        getitem response (Key "JobRunId") = inl e →
        lambda_handler event w
        = (inl e, mkWorld (started w ++ [req]) (stdout w)))
  ∧ (∀ entries, start_job_run req = inr (PDict entries) →
        dict_get "JobRunId" entries = None →
        (lambda_handler event w).1 = inl KeyError).
Proof.
  intros Hb Hk req. rewrite (lambda_handler_fields _ _ _ _ Hb Hk). cbv zeta.
  fold req. split; [|split].
  - intros e ->. reflexivity.
  - intros response e -> ->. reflexivity.
  - intros entries -> Hnone. cbn [getitem]. by rewrite Hnone.
Qed.

(** X20. When the object key of the notification is not a string, the
    handler raises AttributeError, from the URL decoding, and makes no
    job-start call. *)
Theorem non_string_key_no_dispatch event w bucket_name v :
  event_bucket_name event = Some bucket_name →
  event_object_key event = Some v →
  (∀ key, v ≠ PStr key) →
  lambda_handler event w = (inl AttributeError, w).
Proof.
  intros Hb Hk Hv. rewrite (lambda_handler_fields _ _ _ _ Hb Hk).
  destruct v; try reflexivity. by destruct (Hv s).
Qed.

(** X21. Whatever the notification is and whatever the service answers,
    the handler keeps the job-start calls made before and adds at most
    one, and prints at most one value, and only when it returns one. *)
Theorem handler_dispatches_at_most_once event w :
  (started (lambda_handler event w).2 = started w
   ∨ ∃ req, started (lambda_handler event w).2 = started w ++ [req])
  ∧ (stdout (lambda_handler event w).2 = stdout w
     ∨ ∃ ack, (lambda_handler event w).1 = inr ack
              ∧ stdout (lambda_handler event w).2 = stdout w ++ [ack]).
Proof.
  destruct (event_bucket_name event) as [bucket_name|] eqn:Hb.
  2: { destruct (missing_field_raises event w) as (e & ->); [by left|].
       by split; left. }
  destruct (event_object_key event) as [v|] eqn:Hk.
  2: { destruct (missing_field_raises event w) as (e & ->); [by right|].
       by split; left. }
  rewrite (lambda_handler_fields _ _ _ _ Hb Hk).
  destruct v; try (by split; left). cbv zeta.
  destruct (start_job_run _) as [e|response]; [split; [right; eauto | by left]|].
  destruct (getitem response (Key "JobRunId")) as [e|id];
    [split; [right; eauto | by left]|].
  split; right; eauto.
Qed.

End trigger_more.

Lemma well_formed_event_dispatches_once_witness :
  started (@lambda_handler Sample.trigger_env Sample.event_ok idle).2
  = started idle
    ++ [mkRequest "consolidate-employee-data-lewis"
          [ ("--dst_bucket_name", PStr "lake");
            ("--file_name", PStr "batch.csv") ]].
Proof.
  refine (@well_formed_event_dispatches_once Sample.trigger_env Sample.event_ok
            idle (PStr "lake") "incoming/batch.csv" _ _).
  - vm_compute. reflexivity.
  - vm_compute. reflexivity.
Defined.

Lemma answered_call_is_acknowledged_witness :
  stdout (@lambda_handler Sample.trigger_env Sample.event_ok idle).2
  = stdout idle ++ [PDict [("statusCode", PInt 200); ("body", PStr "{}")]].
Proof.
  refine (proj2 (@answered_call_is_acknowledged Sample.trigger_env
            Sample.event_ok idle (PStr "lake") "incoming/batch.csv"
            (PDict [("JobRunId", PStr "jr_1")]) (PStr "jr_1") _ _ _ _)).
  - vm_compute. reflexivity.
  - vm_compute. reflexivity.
  - reflexivity.
  - reflexivity.
Defined.

Lemma failed_call_raises_after_dispatch_witness :
  @lambda_handler Cases.trigger_env_down Sample.event_ok idle
  = (inl (ServiceError "down"),
     mkWorld [mkRequest "consolidate-employee-data-lewis"
                [ ("--dst_bucket_name", PStr "lake");
                  ("--file_name", PStr "batch.csv") ]] []).
Proof.
  refine (proj1 (@failed_call_raises_after_dispatch Cases.trigger_env_down
            Sample.event_ok idle (PStr "lake") "incoming/batch.csv" _ _)
            (ServiceError "down") _).
  - vm_compute. reflexivity.
  - vm_compute. reflexivity.
  - reflexivity.
Defined.

Lemma non_string_key_no_dispatch_witness :
  @lambda_handler Sample.trigger_env Cases.event_number_key idle
  = (inl AttributeError, idle).
Proof.
  refine (@non_string_key_no_dispatch Sample.trigger_env Cases.event_number_key
            idle (PStr "lake") (PInt 5) _ _ _).
  - vm_compute. reflexivity.
  - vm_compute. reflexivity.
  - discriminate.
Defined.
